(** * Transcript pyramid writer ([sopa/io/explorer/transcripts.py])

    A shallow embedding of [write_transcripts] and [subsample_indices], and
    the properties of the multi-resolution pyramid they write.

    Conventions of the embedding.
    - float64 values (coordinates, [xmax], [ymax], quotients by the tile size)
      are rationals [Q] with exact arithmetic; [np.floor] and [math.ceil] are
      [Qfloor] and [Qceiling].
    - Python and NumPy integers are [Z] (values) or [nat] (lengths, indices).
    - The eight per-point arrays are kept as eight parallel lists, as in the
      source, and are sliced together.
    - [np.random] is a generator state threaded through the level loop; its
      contract ([replace=False]) is the record [Sampler].
    - The caller's DataFrame, the file system and the generator state are
      passed in and handed back in an [Outcome], also when the call raises. *)

From Stdlib Require Import Ascii QArith Qround.
From stdpp Require Import base option list list_numbers strings pretty sorting gmap.

Local Open Scope Z_scope.

(** ** Exceptions *)

Inductive exn := ValueError | AssertionError.

Inductive result (A : Type) :=
  | Ok (a : A)
  | Raise (e : exn).
Arguments Ok {A} a.
Arguments Raise {A} e.

(** ** NumPy helpers *)

Definition Qmaxb (a b : Q) : Q := if Qle_bool a b then b else a.
Definition Qminb (a b : Q) : Q := if Qle_bool a b then a else b.

(** [a.max()]: a zero-size array has no maximum, NumPy raises [ValueError]. *)
Definition np_max (a : list Q) : result Q :=
  match a with
  | [] => Raise ValueError
  | x :: a' => Ok (foldl Qmaxb x a')
  end.

Definition np_min (a : list Q) : result Q :=
  match a with
  | [] => Raise ValueError
  | x :: a' => Ok (foldl Qminb x a')
  end.

(** [a[idx]] for an integer index array: row [j] of the result is row
    [idx[j]] of [a].  NumPy raises [IndexError] for an index that is not below
    [len(a)]; both index arrays of this program are in range by construction
    (see [np_where_lt] and [choice_lt]), and such an index selects nothing
    here. *)
Definition getitem {A} (a : list A) (idx : list nat) : list A :=
  omap (λ i, a !! i) idx.

(** [np.where(a == s)[0]]: the positions of [a] that hold [s], ascending. *)
Definition np_where {A} `{EqDecision A} (a : list A) (s : A) : list nat :=
  filter (λ j, a !! j = Some s) (seq 0 (length a)).

(** [np.arange(n)] *)
Definition np_arange (n : nat) : list Z := Z.of_nat <$> seq 0 n.

(** ** The input table *)

Record Point := { px : Q; py : Q; pgene : string }.

(** dtype of the gene column: Python strings ([object]), or categorical with
    its categories in code order. *)
Inductive GeneDtype :=
  | ObjectDtype
  | CategoryDtype (categories : list string).

Record DataFrame := { rows : list Point; gene_dtype : GeneDtype }.

Global Instance GeneDtype_eq_dec : EqDecision GeneDtype.
Proof. solve_decision. Defined.

(** [series.astype("category")]: the categories of a column of strings are
    its distinct values in ascending order; a column that is categorical
    already keeps its dtype. *)
Definition astype_category (values : list string) (dt : GeneDtype) : list string :=
  match dt with
  | ObjectDtype => merge_sort String.le (remove_dups values)
  | CategoryDtype cats => cats
  end.

(** [series.cat.codes]: the position of a value among the categories, [-1]
    for a value that is not one of them. *)
Fixpoint cat_code (cats : list string) (v : string) : Z :=
  match cats with
  | [] => -1
  | c :: cats' =>
      if decide (c = v) then 0
      else let k := cat_code cats' v in if decide (k = -1) then -1 else k + 1
  end.

(** ** The per-point arrays *)

Record Bundle := {
  location : list (Q * Q * Q);
  valid : list Q;
  status : list Q;
  gene_identity : list Z;
  quality_score : list Z;
  codeword_identity : list (Z * Z);
  uuid : list (Z * Z);
  transcript_id : list (Z * Z);
}.

(** Lines 177-184: every array is sliced by the same index array. *)
Definition getitem_bundle (b : Bundle) (idx : list nat) : Bundle :=
  {| location := getitem (location b) idx;
     valid := getitem (valid b) idx;
     status := getitem (status b) idx;
     gene_identity := getitem (gene_identity b) idx;
     quality_score := getitem (quality_score b) idx;
     codeword_identity := getitem (codeword_identity b) idx;
     uuid := getitem (uuid b) idx;
     transcript_id := getitem (transcript_id b) idx |}.


(** ** Random sampling *)

(** [np.random.choice(a, size, replace=False)] for an integer [a]: [size]
    distinct values below [a], and the generator moves on.  (NumPy raises
    for [size > a]; [subsample_indices] asks for [a // 4] values.) *)
Record Sampler := {
  rng : Type;
  choice : rng → nat → nat → list nat * rng;
  choice_length : ∀ g a size, (size ≤ a)%nat → length (choice g a size).1 = size;
  choice_NoDup : ∀ g a size, NoDup (choice g a size).1;
  choice_lt : ∀ g a size, Forall (λ i, (i < a)%nat) (choice g a size).1;
}.

Definition subsample_indices (S : Sampler) (g : rng S) (n_samples : nat)
    : list nat * rng S :=
  let factor := 4%nat in
  let n_sub := (n_samples / factor)%nat in
  choice S g n_samples n_sub.

Definition MAX_LEVELS : nat := 15.
Definition GRID_SIZE : Z := 250.
Definition QUALITY_SCORE : Z := 40.

(** ** Grid tiler (lines 93-119) *)

Definition tile_size (level : nat) : Z := GRID_SIZE * 2 ^ Z.of_nat level.

(** [np.floor(c / tile_size).clip(0).astype(int)] on one coordinate. *)
Definition tile_index (ts : Z) (c : Q) : Z :=
  Z.max 0 (Qfloor (c / inject_Z ts)).

(** The f-string [f"{tx},{ty}"]. *)
Definition str_index (tx ty : Z) : string := pretty tx +:+ "," +:+ pretty ty.

Definition tiles_str_indices (ts : Z) (loc : list (Q * Q * Q)) : list string :=
  (λ p, str_index (tile_index ts p.1.1) (tile_index ts p.1.2)) <$> loc.

(** [ceil(xmax / tile_size)] *)
Definition n_tiles (ts : Z) (cmax : Q) : Z := Qceiling (cmax / inject_Z ts).

(** The two nested [for] loops of lines 106-119: the keys are visited in
    ascending [tx], then ascending [ty]; a key without points is skipped by
    [continue], every other key is kept with its row positions [loc]. *)
Definition scan_tiles (strs : list string) (n_tiles_x n_tiles_y : Z)
    : list (string * list nat) :=
  tx ← seqZ 0 n_tiles_x;
  ty ← seqZ 0 n_tiles_y;
  let loc := np_where strs (str_index tx ty) in
  if decide (length loc = 0%nat) then [] else [(str_index tx ty, loc)].

(** ** Pyramid level builder (lines 90-184) *)

(** One iteration of the level loop: the working arrays it starts from, the
    tiles it materializes, and the indices drawn for the next level ([None]
    when the loop breaks at this level). *)
Record Level := {
  lv_level : nat;
  lv_working : Bundle;
  lv_tiles : list (string * list nat);
  lv_sub_indices : option (list nat);
}.

Fixpoint level_loop (S : Sampler) (xmax ymax : Q) (levels : list nat)
    (g : rng S) (w : Bundle) : list Level * rng S :=
  match levels with
  | [] => ([], g)
  | level :: rest =>
      let ts := tile_size level in
      let strs := tiles_str_indices ts (location w) in
      let n_tiles_x := n_tiles ts xmax in
      let n_tiles_y := n_tiles ts ymax in
      let tiles := scan_tiles strs n_tiles_x n_tiles_y in
      if decide (n_tiles_x * n_tiles_y = 1) then
        ([{| lv_level := level; lv_working := w; lv_tiles := tiles;
             lv_sub_indices := None |}], g)
      else
        let sg := subsample_indices S g (length (location w)) in
        let more := level_loop S xmax ymax rest sg.2 (getitem_bundle w sg.1) in
        ({| lv_level := level; lv_working := w; lv_tiles := tiles;
            lv_sub_indices := Some sg.1 |} :: more.1, more.2)
  end.

(** ** The container *)

(** A tile group holds the eight arrays [valid], [status], [location],
    [gene_identity], [quality_score], [codeword_identity], [uuid] and [id]
    (declared uint8, uint8, float32, uint16, float32, uint16, uint32, uint32),
    all with the same [chunks]. The values are recorded as handed to the
    container; their stored encoding is the container's. *)
Record TileGroup := { tg_arrays : Bundle; tg_chunks : nat * nat }.

Record Attrs := {
  codeword_count : nat;
  codeword_gene_mapping : list Z;
  codeword_gene_names : list string;
  gene_names : list string;
  gene_index_map : gmap string Z;
  number_genes : nat;
  spatial_units : string;
  coordinate_space : string;
  major_version : Z;
  minor_version : Z;
  name : string;
  number_rnas : nat;
  dataset_uuid : string;
  data_format : Z;
}.

Record GridsAttrs := {
  grid_key_names : list string;
  grid_zip : bool;
  grid_size : list Z;
  grid_array_shapes : list (list unit);
  grid_number_objects : list (list nat);
  grid_keys : list (list string);
  number_levels : option nat;
}.

(** The root group with its attributes, the group [grids] with its
    attributes, and below it one group per level (named by the level) with
    one group per materialized tile (named by its key), in creation order. *)
Record Container := {
  root_attrs : Attrs;
  grids_attrs : GridsAttrs;
  grids : list (nat * list (string * TileGroup));
}.

Inductive File :=
  | OtherFile (content : string)
  | ZipStore (c : Container).

Definition tile_group (w : Bundle) (t : string * list nat) : string * TileGroup :=
  (t.1, {| tg_arrays := getitem_bundle w t.2; tg_chunks := (length t.2, 1%nat) |}).

Definition level_group (lv : Level) : nat * list (string * TileGroup) :=
  (lv_level lv, tile_group (lv_working lv) <$> lv_tiles lv).

(** [GRIDS_ATTRS["number_levels"]] is set only where the loop breaks. *)
Definition recorded_number_levels (lvs : list Level) : option nat :=
  match last lvs with
  | Some lv =>
      match lv_sub_indices lv with
      | None => Some (lv_level lv + 1)%nat
      | Some _ => None
      end
  | None => None
  end.

Definition make_grids_attrs (lvs : list Level) : GridsAttrs :=
  {| grid_key_names := ["grid_x_loc"; "grid_y_loc"];
     grid_zip := false;
     grid_size := [GRID_SIZE];
     grid_array_shapes := (λ lv, (λ _, ()) <$> lv_tiles lv) <$> lvs;
     grid_number_objects := (λ lv, (λ t, length t.2) <$> lv_tiles lv) <$> lvs;
     grid_keys := (λ lv, fst <$> lv_tiles lv) <$> lvs;
     number_levels := recorded_number_levels lvs |}.

(** [print(f"Level {level}: {len(location)} transcripts")] *)
Definition level_line (lv : Level) : string :=
  "Level " +:+ pretty (lv_level lv) +:+ ": "
    +:+ pretty (length (location (lv_working lv))) +:+ " transcripts".

(** ** Attribute preparation (lines 23-79) *)

Record Prepared := {
  p_xmax : Q;
  p_ymax : Q;
  p_gene_names : list string;
  p_bundle : Bundle;
}.

Definition sentinel : Z := 65535.

(** Line 24 assigns the converted column back into the caller's table. *)
Definition convert_gene_column (df : DataFrame) : DataFrame :=
  {| rows := rows df;
     gene_dtype := CategoryDtype (astype_category (pgene <$> rows df) (gene_dtype df)) |}.

Definition df_categories (df : DataFrame) : list string :=
  match gene_dtype df with
  | ObjectDtype => []
  | CategoryDtype cats => cats
  end.

(** Lines 26-27 and 34-51, on the table as line 24 left it: the arrays of
    the full-resolution point set. *)
Definition full_resolution (df : DataFrame) : Bundle :=
  let num_transcripts := length (rows df) in
  let gene_names := df_categories df in
  let codes := (λ p, cat_code gene_names (pgene p)) <$> rows df in
  {| location := (λ p, (px p, py p, 0%Q)) <$> rows df;
     valid := replicate num_transcripts 1%Q;
     status := replicate num_transcripts 0%Q;
     gene_identity := codes;
     quality_score := replicate num_transcripts QUALITY_SCORE;
     codeword_identity := (λ c, (c, sentinel)) <$> codes;
     uuid := (λ i, (i, sentinel)) <$> np_arange num_transcripts;
     transcript_id := (λ i, (i, sentinel)) <$> np_arange num_transcripts |}.

(** Lines 26-51: the bounding box (line 29) is taken before the two
    assertions (lines 31-32). *)
Definition prepare (df : DataFrame) : result Prepared :=
  let loc := (λ p, (px p, py p, 0%Q)) <$> rows df in
  match np_max ((λ r, r.1.1) <$> loc), np_max ((λ r, r.1.2) <$> loc) with
  | Ok xmax, Ok ymax =>
      match np_min ((λ r, r.1.1) <$> loc), np_min ((λ r, r.1.2) <$> loc) with
      | Ok xmin, Ok ymin =>
          if negb (Qle_bool 0 xmin) then Raise AssertionError
          else if negb (Qle_bool 0 ymin) then Raise AssertionError
          else
            Ok {| p_xmax := xmax; p_ymax := ymax;
                  p_gene_names := df_categories df;
                  p_bundle := full_resolution df |}
      | Raise e, _ | _, Raise e => Raise e
      end
  | Raise e, _ | _, Raise e => Raise e
  end.

Definition make_attrs (gene_names : list string) (num_transcripts : nat) : Attrs :=
  let num_genes := length gene_names in
  let codeword_gene_mapping := np_arange num_genes in
  {| codeword_count := num_genes;
     codeword_gene_mapping := codeword_gene_mapping;
     codeword_gene_names := gene_names;
     gene_names := gene_names;
     gene_index_map :=
       foldl (λ m kv, <[kv.1 := kv.2]> m) ∅ (zip gene_names codeword_gene_mapping);
     number_genes := num_genes;
     spatial_units := "micron";
     coordinate_space := "refined-final_global_micron";
     major_version := 4;
     minor_version := 1;
     name := "RnaDataset";
     number_rnas := num_transcripts;
     dataset_uuid := "unique-id-test";
     data_format := 0 |}.

(** ** [write_transcripts] *)

(** What a call leaves behind: the caller's table, the file system, the
    generator, the printed lines, and whether it returned or raised.
    [out_levels] is the history of the level loop, one entry per iteration. *)
Record Outcome (S : Sampler) := {
  out_df : DataFrame;
  out_fs : gmap string File;
  out_rng : rng S;
  out_stdout : list string;
  out_levels : list Level;
  out_result : result ();
}.
Arguments out_df {S} o.
Arguments out_fs {S} o.
Arguments out_rng {S} o.
Arguments out_stdout {S} o.
Arguments out_levels {S} o.
Arguments out_result {S} o.

(** The levels the loop goes through for a prepared table. *)
Definition build_levels (S : Sampler) (p : Prepared) (g : rng S)
    : list Level * rng S :=
  level_loop S (p_xmax p) (p_ymax p) (seq 0 MAX_LEVELS) g (p_bundle p).
Arguments build_levels : simpl never.

Definition make_container (p : Prepared) (lvs : list Level) : Container :=
  {| root_attrs := make_attrs (p_gene_names p) (length (location (p_bundle p)));
     grids_attrs := make_grids_attrs lvs;
     grids := level_group <$> lvs |}.

Definition write_transcripts (S : Sampler) (path : string) (df : DataFrame)
    (fs : gmap string File) (g : rng S) : Outcome S :=
  let df' := convert_gene_column df in
  match prepare df' with
  | Raise e =>
      {| out_df := df'; out_fs := fs; out_rng := g; out_stdout := [];
         out_levels := []; out_result := Raise e |}
  | Ok p =>
      (* if path.exists(): path.unlink() *)
      let fs1 := delete path fs in
      (* with zarr.ZipStore(path, mode="w") as store: ... *)
      let built := build_levels S p g in
      {| out_df := df';
         out_fs := <[path := ZipStore (make_container p built.1)]> fs1;
         out_rng := built.2;
         out_stdout := level_line <$> built.1;
         out_levels := built.1;
         out_result := Ok () |}
  end.

(** The container a successful call leaves at [path]. *)
Definition written {S : Sampler} (path : string) (o : Outcome S) : option Container :=
  match out_result o, out_fs o !! path with
  | Ok _, Some (ZipStore c) => Some c
  | _, _ => None
  end.

(** ** A sampler to run examples with: it keeps the last [size] positions. *)

Program Definition tail_sampler : Sampler :=
  {| rng := unit;
     choice := λ g a size, (seq (a - size) (size `min` a), g) |}.
Next Obligation. intros. simpl. rewrite length_seq. lia. Qed.
Next Obligation. intros. simpl. apply NoDup_seq. Qed.
Next Obligation.
  intros g a size. simpl. apply Forall_forall. intros i Hi.
  apply elem_of_seq in Hi. lia.
Qed.

Definition pt (x y : Z) (gene : string) : Point :=
  {| px := inject_Z x; py := inject_Z y; pgene := gene |}.

Definition example_df : DataFrame :=
  {| rows := [pt 10 10 "A"; pt 10 10 "B"; pt 300 10 "A"; pt 300 300 "C"];
     gene_dtype := ObjectDtype |}.


(** A single point on the upper edge of the first tile column. *)
Definition boundary_df : DataFrame :=
  {| rows := [pt 250 10 "A"]; gene_dtype := ObjectDtype |}.


Definition negative_df : DataFrame :=
  {| rows := [pt 10 10 "A"; pt (-1) 5 "B"]; gene_dtype := ObjectDtype |}.

Definition empty_df : DataFrame := {| rows := []; gene_dtype := ObjectDtype |}.

(** A table whose gene column is categorical already, with its categories
    in an order of their own. *)
Definition categorical_df : DataFrame :=
  {| rows := [pt 10 10 "A"; pt 20 20 "B"];
     gene_dtype := CategoryDtype ["B"; "A"] |}.

(** A file system that already holds a file at the target path. *)
Definition old_fs : gmap string File := {[ "out.zarr.zip" := OtherFile "previous" ]}.

(** ** Predicates used in the statements *)

(** All indices of an index array are below [n]. *)
Definition in_range (n : nat) (idx : list nat) : Prop :=
  Forall (λ i, (i < n)%nat) idx.

(** The eight arrays have [n] rows each. *)
Definition bundle_len (b : Bundle) (n : nat) : Prop :=
  length (location b) = n ∧ length (valid b) = n ∧ length (status b) = n
  ∧ length (gene_identity b) = n ∧ length (quality_score b) = n
  ∧ length (codeword_identity b) = n ∧ length (uuid b) = n
  ∧ length (transcript_id b) = n.

(** The test of line 171 at a level. *)
Definition terminal (xmax ymax : Q) (level : nat) : Prop :=
  n_tiles (tile_size level) xmax * n_tiles (tile_size level) ymax = 1.

Global Instance terminal_dec xmax ymax level : Decision (terminal xmax ymax level).
Proof. unfold terminal. apply _. Defined.

(** What one iteration does, seen from its history entry. *)
Definition level_ok (S : Sampler) (xmax ymax : Q) (lv : Level) : Prop :=
  lv_tiles lv
    = scan_tiles (tiles_str_indices (tile_size (lv_level lv)) (location (lv_working lv)))
        (n_tiles (tile_size (lv_level lv)) xmax) (n_tiles (tile_size (lv_level lv)) ymax)
  ∧ match lv_sub_indices lv with
    | None => terminal xmax ymax (lv_level lv)
    | Some sub =>
        ¬ terminal xmax ymax (lv_level lv)
        ∧ ∃ g, sub = (subsample_indices S g (length (location (lv_working lv)))).1
    end.

(** A string without the separator of tile keys. *)
Fixpoint no_comma (s : string) : Prop :=
  match s with
  | EmptyString => True
  | String c s' => c ≠ ","%char ∧ no_comma s'
  end.

(** A point that passes the assertions of lines 31-32. *)
Definition nonneg (pt : Point) : Prop := (0 <= px pt)%Q ∧ (0 <= py pt)%Q.

(** The order in which the loops of lines 106-107 visit the tiles: by
    ascending [tx], then ascending [ty]. *)
Definition visited_before (a b : Z * Z) : Prop :=
  a.1 < b.1 ∨ (a.1 = b.1 ∧ a.2 < b.2).

(** ** Indexing lemmas *)

Section getitem.
Context {A : Type}.
Implicit Types (a : list A) (idx : list nat).

Lemma getitem_nil a : getitem a [] = [].
Proof. done. Qed.

Lemma getitem_cons a i idx x :
  a !! i = Some x → getitem a (i :: idx) = x :: getitem a idx.
Proof. intros Hi. unfold getitem. simpl. by rewrite Hi. Qed.

Lemma getitem_lookup a idx j :
  in_range (length a) idx →
  getitem a idx !! j = idx !! j ≫= (a !!.).
Proof.
  intros Hr. revert j. induction Hr as [|i idx Hi _ IH]; intros j; [done|].
  destruct (lookup_lt_is_Some_2 a i Hi) as [x Hx].
  rewrite (getitem_cons _ _ _ x) by done.
  destruct j as [|j]; simpl; [by rewrite Hx|apply IH].
Qed.

Lemma getitem_length a idx :
  in_range (length a) idx → length (getitem a idx) = length idx.
Proof.
  induction 1 as [|i idx Hi _ IH]; [done|].
  destruct (lookup_lt_is_Some_2 a i Hi) as [x Hx].
  rewrite (getitem_cons _ _ _ x) by done. simpl. by rewrite IH.
Qed.

Lemma getitem_elem_of a idx x : x ∈ getitem a idx → x ∈ a.
Proof.
  unfold getitem. rewrite list_elem_of_omap. intros (i & _ & Hi).
  by eapply list_elem_of_lookup_2.
Qed.

Lemma getitem_seq a : getitem a (seq 0 (length a)) = a.
Proof.
  apply list_eq. intros j. rewrite getitem_lookup.
  - destruct (decide (j < length a)%nat) as [Hj|Hj].
    + by rewrite lookup_seq_lt.
    + rewrite lookup_seq_ge by lia. simpl. symmetry. apply lookup_ge_None. lia.
  - apply Forall_forall. intros i Hi. apply elem_of_seq in Hi. lia.
Qed.

End getitem.

Lemma getitem_unfold {A} (a : list A) i idx :
  getitem a (i :: idx)
  = match a !! i with Some x => x :: getitem a idx | None => getitem a idx end.
Proof. done. Qed.

Lemma getitem_getitem {A} (a : list A) idx1 idx2 :
  in_range (length a) idx1 →
  getitem (getitem a idx1) idx2 = getitem a (getitem idx1 idx2).
Proof.
  intros Hr. induction idx2 as [|j idx2 IH]; [done|].
  rewrite (getitem_unfold (getitem a idx1)), (getitem_unfold idx1).
  rewrite getitem_lookup, IH by done.
  destruct (idx1 !! j) as [i|] eqn:Hj; [|done].
  assert (i < length a)%nat as Hi.
  { eapply (Forall_lookup_1 _ _ _ _ Hr Hj). }
  destruct (lookup_lt_is_Some_2 a i Hi) as [x Hx].
  rewrite (getitem_cons _ _ _ x) by done.
  change (Some i ≫= (a !!.)) with (a !! i). by rewrite Hx.
Qed.

Lemma getitem_fmap {A B} (f : A → B) (a : list A) idx :
  getitem (f <$> a) idx = f <$> getitem a idx.
Proof.
  unfold getitem. rewrite list_fmap_omap. apply list_omap_ext.
  apply Forall2_same_length_lookup_2; [done|].
  intros j i i' Hi Hi'. simplify_eq. by rewrite list_lookup_fmap.
Qed.

Lemma in_range_getitem n idx1 idx2 :
  in_range n idx1 → in_range n (getitem idx1 idx2).
Proof.
  intros Hr. apply Forall_forall. intros i Hi.
  apply getitem_elem_of in Hi. eapply Forall_forall in Hr; eauto.
Qed.

Lemma NoDup_getitem (idx1 idx2 : list nat) :
  NoDup idx1 → NoDup idx2 → NoDup (getitem idx1 idx2).
Proof.
  intros Hd1 Hd2. induction Hd2 as [|j idx2 Hj Hd2 IH]; [constructor|].
  rewrite getitem_unfold.
  destruct (idx1 !! j) as [i|] eqn:Hi; [|done].
  constructor; [|done].
  unfold getitem. rewrite list_elem_of_omap. intros (j' & Hj' & Hi').
  simpl in Hi'. assert (j = j') by exact (NoDup_lookup _ _ _ _ Hd1 Hi Hi'). by subst.
Qed.

Lemma getitem_replicate {A} (x : A) n idx :
  in_range n idx → getitem (replicate n x) idx = replicate (length idx) x.
Proof.
  induction 1 as [|i idx Hi _ IH]; [done|].
  rewrite (getitem_cons _ _ _ x) by (by apply lookup_replicate_2).
  simpl. by rewrite IH.
Qed.

Lemma getitem_arange n idx :
  in_range n idx → getitem (np_arange n) idx = Z.of_nat <$> idx.
Proof.
  intros Hr. unfold np_arange. rewrite getitem_fmap. f_equal.
  induction Hr as [|i idx Hi _ IH]; [done|].
  rewrite (getitem_cons _ _ _ i) by (by apply lookup_seq_lt).
  by rewrite IH.
Qed.

(** [np.where] returns positions of the array, each once, each a match. *)
Lemma np_where_spec {A} `{EqDecision A} (a : list A) s j :
  j ∈ np_where a s ↔ a !! j = Some s.
Proof.
  unfold np_where. rewrite list_elem_of_filter, elem_of_seq.
  split; [tauto|]. intros Hj. split; [done|].
  apply lookup_lt_Some in Hj. lia.
Qed.

Lemma np_where_lt {A} `{EqDecision A} (a : list A) s :
  in_range (length a) (np_where a s).
Proof.
  apply Forall_forall. intros j Hj. apply np_where_spec in Hj.
  by eapply lookup_lt_Some.
Qed.

Lemma np_where_NoDup {A} `{EqDecision A} (a : list A) s : NoDup (np_where a s).
Proof. apply NoDup_filter, NoDup_seq. Qed.

(** ** The eight arrays stay parallel *)

Lemma getitem_bundle_len b n idx :
  bundle_len b n → in_range n idx → bundle_len (getitem_bundle b idx) (length idx).
Proof.
  intros (?&?&?&?&?&?&?&?) Hr. unfold bundle_len, getitem_bundle; simpl.
  repeat split; apply getitem_length; congruence.
Qed.

Lemma getitem_bundle_seq b n :
  bundle_len b n → getitem_bundle b (seq 0 n) = b.
Proof.
  intros (<-&H1&H2&H3&H4&H5&H6&H7). destruct b; unfold getitem_bundle; simpl in *.
  f_equal; [apply getitem_seq|..];
    match goal with |- getitem ?a _ = _ =>
      match goal with H : length a = _ |- _ => rewrite <-H; apply getitem_seq end
    end.
Qed.

Lemma getitem_bundle_getitem b n idx1 idx2 :
  bundle_len b n → in_range n idx1 →
  getitem_bundle (getitem_bundle b idx1) idx2 = getitem_bundle b (getitem idx1 idx2).
Proof.
  intros (?&?&?&?&?&?&?&?) Hr. unfold getitem_bundle; simpl.
  f_equal; apply getitem_getitem; congruence.
Qed.

(** ** The level loop, iteration by iteration *)

Section level_loop.
Context (S : Sampler) (xmax ymax : Q).
Local Abbreviation loop := (level_loop S xmax ymax).

Lemma level_loop_cons level rest g w :
  loop (level :: rest) g w =
    let tiles := scan_tiles (tiles_str_indices (tile_size level) (location w))
                   (n_tiles (tile_size level) xmax) (n_tiles (tile_size level) ymax) in
    if decide (terminal xmax ymax level) then
      ([{| lv_level := level; lv_working := w; lv_tiles := tiles;
           lv_sub_indices := None |}], g)
    else
      let sg := subsample_indices S g (length (location w)) in
      let more := loop rest sg.2 (getitem_bundle w sg.1) in
      ({| lv_level := level; lv_working := w; lv_tiles := tiles;
          lv_sub_indices := Some sg.1 |} :: more.1, more.2).
Proof. done. Qed.

Lemma level_loop_level_ok levels g w lv :
  lv ∈ (loop levels g w).1 → level_ok S xmax ymax lv.
Proof.
  revert g w. induction levels as [|level rest IH]; intros g w.
  { simpl. by intros ?%elem_of_nil. }
  rewrite level_loop_cons. cbv zeta. case_decide as Ht; simpl.
  - intros ->%list_elem_of_singleton. by split.
  - intros [->|Hin]%elem_of_cons; [|by eapply IH].
    split; [done|]. simpl. eauto.
Qed.

(** Entry [i] of the history is the iteration for the [i]-th level. *)
Lemma level_loop_lookup_level levels g w i lv :
  (loop levels g w).1 !! i = Some lv → levels !! i = Some (lv_level lv).
Proof.
  revert g w i. induction levels as [|level rest IH]; intros g w i.
  { done. }
  rewrite level_loop_cons. cbv zeta. case_decide as Ht; simpl.
  - destruct i as [|i]; simpl; [by intros [= <-]|done].
  - destruct i as [|i]; simpl; [by intros [= <-]|by apply IH].
Qed.


(** The loop stops at the first level that passes the test of line 171. *)
Lemma level_loop_break levels g w i L :
  levels !! i = Some L →
  terminal xmax ymax L →
  (∀ j l, (j < i)%nat → levels !! j = Some l → ¬ terminal xmax ymax l) →
  length (loop levels g w).1 = (i + 1)%nat
  ∧ ∃ lv, (loop levels g w).1 !! i = Some lv
      ∧ lv_level lv = L ∧ lv_sub_indices lv = None.
Proof.
  revert g w i. induction levels as [|level rest IH]; intros g w i; [done|].
  rewrite level_loop_cons. cbv zeta. destruct i as [|i]; simpl.
  - intros [= ->] Ht _. rewrite decide_True by done. simpl. eauto.
  - intros Hi Ht Hbefore. rewrite decide_False; simpl.
    + destruct (IH (subsample_indices S g (length (location w))).2
                  (getitem_bundle w (subsample_indices S g (length (location w))).1)
                  i Hi Ht) as [Hlen Hlv].
      { intros j l Hj. apply (Hbefore (Datatypes.S j)). lia. }
      split; [by rewrite Hlen|done].
    + by apply (Hbefore 0%nat); [lia|].
Qed.

(** Without such a level the loop runs through all of them. *)
Lemma level_loop_exhaust levels g w :
  (∀ l, l ∈ levels → ¬ terminal xmax ymax l) →
  length (loop levels g w).1 = length levels
  ∧ ∀ lv, lv ∈ (loop levels g w).1 → lv_sub_indices lv ≠ None.
Proof.
  revert g w. induction levels as [|level rest IH]; intros g w Hnt.
  { split; [done|]. by intros lv ?%elem_of_nil. }
  rewrite level_loop_cons. cbv zeta.
  rewrite decide_False by (apply Hnt; left). simpl.
  destruct (IH (subsample_indices S g (length (location w))).2
              (getitem_bundle w (subsample_indices S g (length (location w))).1))
    as [Hlen Hsub].
  { intros l Hl. apply Hnt. by right. }
  split; [by rewrite Hlen|].
  intros lv [->|Hin]%elem_of_cons; [done|by apply Hsub].
Qed.

(** Every iteration works on rows of the arrays the loop started with,
    each taken at most once. *)
Lemma level_loop_origin levels g w n lv :
  bundle_len w n →
  lv ∈ (loop levels g w).1 →
  ∃ origin, NoDup origin ∧ in_range n origin
    ∧ lv_working lv = getitem_bundle w origin.
Proof.
  revert g w n. induction levels as [|level rest IH]; intros g w n Hw.
  { simpl. by intros ?%elem_of_nil. }
  assert (∃ origin, NoDup origin ∧ in_range n origin ∧ w = getitem_bundle w origin)
    as Hhead.
  { exists (seq 0 n). split; [apply NoDup_seq|]. split.
    - apply Forall_forall. intros i Hi%elem_of_seq. lia.
    - by rewrite (getitem_bundle_seq _ n). }
  rewrite level_loop_cons. cbv zeta. case_decide as Ht; simpl.
  - by intros ->%list_elem_of_singleton.
  - intros [->|Hin]%elem_of_cons; [done|].
    set (sg := subsample_indices S g (length (location w))) in *.
    assert (in_range n sg.1) as Hr.
    { destruct Hw as [<- _]. apply choice_lt. }
    destruct (IH _ _ (length sg.1) (getitem_bundle_len _ _ _ Hw Hr) Hin)
      as (origin & Hnd & Hor & ->).
    exists (getitem sg.1 origin). split; [|split].
    + apply NoDup_getitem; [apply choice_NoDup|done].
    + by apply in_range_getitem.
    + by apply (getitem_bundle_getitem _ n).
Qed.
End level_loop.

(** ** Tile keys *)

Lemma pretty_N_char_no_comma x : pretty_N_char x ≠ ","%char.
Proof. unfold pretty_N_char. by repeat case_match. Qed.

Lemma pretty_N_go_no_comma x s : no_comma s → no_comma (pretty_N_go x s).
Proof.
  revert s. induction (N.lt_wf_0 x) as [x _ IH]; intros s Hs.
  destruct (decide (x = 0)%N) as [->|Hx]; [by rewrite pretty_N_go_0|].
  rewrite pretty_N_go_step by lia. apply IH.
  - apply N.div_lt; lia.
  - split; [apply pretty_N_char_no_comma|done].
Qed.

Lemma pretty_N_no_comma (x : N) : no_comma (pretty x).
Proof.
  unfold pretty, pretty_N. case_decide; [by compute|].
  by apply pretty_N_go_no_comma.
Qed.

Lemma pretty_Z_no_comma (z : Z) : no_comma (pretty z).
Proof.
  unfold pretty, pretty_Z. destruct z as [|p|p].
  - by compute.
  - apply pretty_N_no_comma.
  - split; [done|]. apply pretty_N_no_comma.
Qed.

Lemma string_app_nil (t : string) : "" +:+ t = t.
Proof. done. Qed.

Lemma string_app_cons c (s t : string) : String c s +:+ t = String c (s +:+ t).
Proof. done. Qed.

Lemma app_comma_inj s1 s2 t1 t2 :
  no_comma s1 → no_comma t1 →
  s1 +:+ "," +:+ s2 = t1 +:+ "," +:+ t2 → s1 = t1 ∧ s2 = t2.
Proof.
  revert t1. induction s1 as [|c s1 IH]; intros [|d t1];
    repeat (rewrite string_app_nil || rewrite string_app_cons); simpl.
  - intros _ _ [= ->]. done.
  - intros _ [Hd _] [= <- _]. done.
  - intros [Hc _] _ [= -> _]. done.
  - intros [_ Hs] [_ Ht] [= -> Heq]. destruct (IH t1 Hs Ht Heq) as [-> ->]. done.
Qed.

(** Distinct tile coordinates have distinct keys. *)
Lemma str_index_inj tx ty tx' ty' :
  str_index tx ty = str_index tx' ty' → tx = tx' ∧ ty = ty'.
Proof.
  unfold str_index. intros Heq.
  apply app_comma_inj in Heq as [Hx Hy]; [|apply pretty_Z_no_comma..].
  split; by apply (inj pretty).
Qed.

(** What the scan keeps: the enumerated keys that have points, each with all
    its positions. *)
Lemma scan_tiles_spec strs nx ny k loc :
  (k, loc) ∈ scan_tiles strs nx ny ↔
  ∃ tx ty, 0 ≤ tx < nx ∧ 0 ≤ ty < ny ∧ k = str_index tx ty
    ∧ loc = np_where strs k ∧ loc ≠ [].
Proof.
  unfold scan_tiles. rewrite list_elem_of_bind. split.
  - intros (tx & Hin & Htx). apply list_elem_of_bind in Hin as (ty & Hin & Hty).
    apply elem_of_seqZ in Htx, Hty. case_decide as Hlen.
    { by apply elem_of_nil in Hin. }
    apply list_elem_of_singleton in Hin as [= -> ->].
    exists tx, ty. repeat split; try lia. by intros Hnil; rewrite Hnil in Hlen.
  - intros (tx & ty & Htx & Hty & -> & -> & Hne). exists tx. split.
    + apply list_elem_of_bind. exists ty. split; [|apply elem_of_seqZ; lia].
      rewrite decide_False; [apply list_elem_of_singleton; done|].
      by intros ?%nil_length_inv.
    + apply elem_of_seqZ. lia.
Qed.

(** ** Coordinates and tile indices *)

Lemma tile_size_pos level : 0 < tile_size level.
Proof. unfold tile_size, GRID_SIZE. apply Z.mul_pos_pos; [lia|]. apply Z.pow_pos_nonneg; lia. Qed.

(** After validation the clip of line 97 changes nothing. *)
Lemma tile_index_nonneg ts c :
  0 < ts → (0 <= c)%Q → tile_index ts c = Qfloor (c / inject_Z ts).
Proof.
  intros Hts Hc. unfold tile_index. apply Z.max_r.
  change 0 with (Qfloor 0). apply Qfloor_resp_le.
  apply Qle_shift_div_l.
  - change 0%Q with (inject_Z 0). by rewrite <-Zlt_Qlt.
  - by rewrite Qmult_0_l.
Qed.

(** ** Attribute preparation *)

Lemma Qminb_nonneg a b : (0 <= Qminb a b)%Q ↔ (0 <= a)%Q ∧ (0 <= b)%Q.
Proof.
  unfold Qminb. destruct (Qle_bool a b) eqn:Hab.
  - apply Qle_bool_iff in Hab. split; [|tauto].
    intros Ha. split; [done|]. by eapply Qle_trans.
  - assert (b < a)%Q as Hlt.
    { apply Qnot_le_lt. intros Hle%Qle_bool_iff. congruence. }
    split; [|tauto]. intros Hb. split; [|done].
    eapply Qle_trans; [exact Hb|]. by apply Qlt_le_weak.
Qed.

Lemma foldl_Qminb_nonneg x l :
  (0 <= foldl Qminb x l)%Q ↔ (0 <= x)%Q ∧ Forall (λ y, 0 <= y)%Q l.
Proof.
  revert x. induction l as [|y l IH]; intros x; simpl.
  - split; [intros; split; [done|constructor]|tauto].
  - rewrite IH, Qminb_nonneg, Forall_cons. tauto.
Qed.

Lemma np_min_nonneg a m :
  np_min a = Ok m → Qle_bool 0 m = true ↔ Forall (λ y, 0 <= y)%Q a.
Proof.
  destruct a as [|x a]; [done|]. intros [= <-].
  rewrite Qle_bool_iff, foldl_Qminb_nonneg, Forall_cons. tauto.
Qed.

(** An empty table has no bounding box. *)
Lemma prepare_nil df : rows df = [] → prepare df = Raise ValueError.
Proof. unfold prepare. by intros ->. Qed.

(** On a table with rows, preparation succeeds exactly when no coordinate is
    negative, and fails the assertions otherwise. *)
Lemma prepare_cons df :
  rows df ≠ [] →
  (Forall nonneg (rows df) ∧ ∃ xmax ymax,
      prepare df = Ok {| p_xmax := xmax; p_ymax := ymax;
                         p_gene_names := df_categories df;
                         p_bundle := full_resolution df |})
  ∨ (¬ Forall nonneg (rows df) ∧ prepare df = Raise AssertionError).
Proof.
  intros Hne. unfold prepare.
  destruct (rows df) as [|r rs] eqn:Hrows; [done|].
  cbn [fmap list_fmap np_max np_min].
  set (xmin := foldl Qminb _ _). set (ymin := foldl Qminb _ _).
  assert (Qle_bool 0 xmin = true ↔ Forall (λ y, 0 <= y)%Q (px <$> (r :: rs))) as Hx.
  { apply np_min_nonneg. simpl. unfold xmin. do 2 f_equal.
    by rewrite <-list_fmap_compose. }
  assert (Qle_bool 0 ymin = true ↔ Forall (λ y, 0 <= y)%Q (py <$> (r :: rs))) as Hy.
  { apply np_min_nonneg. simpl. unfold ymin. do 2 f_equal.
    by rewrite <-list_fmap_compose. }
  rewrite Forall_fmap in Hx, Hy.
  assert (Forall nonneg (r :: rs) ↔
          Forall ((λ y, 0 <= y)%Q ∘ px) (r :: rs) ∧ Forall ((λ y, 0 <= y)%Q ∘ py) (r :: rs))
    as Hboth by apply Forall_and.
  destruct (Qle_bool 0 xmin) eqn:Hxb; simpl.
  - destruct (Qle_bool 0 ymin) eqn:Hyb; simpl.
    + left. split; [|eauto]. apply Hboth. split; [by apply Hx|by apply Hy].
    + right. split; [|done]. intros [_ Hf]%Hboth. apply Hy in Hf. done.
  - right. split; [|done]. intros [Hf _]%Hboth. apply Hx in Hf. done.
Qed.

Lemma prepare_Ok_inv df p :
  prepare df = Ok p →
  rows df ≠ [] ∧ Forall nonneg (rows df)
  ∧ p_gene_names p = df_categories df ∧ p_bundle p = full_resolution df.
Proof.
  intros Hp. destruct (decide (rows df = [])) as [Hnil|Hne].
  { by rewrite prepare_nil in Hp. }
  destruct (prepare_cons df Hne) as [[Hf (xmax & ymax & Heq)]|[_ Heq]];
    rewrite Heq in Hp; [|done].
  by injection Hp as <-.
Qed.

Lemma full_resolution_len df : bundle_len (full_resolution df) (length (rows df)).
Proof.
  unfold bundle_len, full_resolution, np_arange. simpl.
  by rewrite !length_fmap, !length_replicate, length_seq.
Qed.

(** [build_levels] is the loop over [range(MAX_LEVELS)]. *)
Lemma build_levels_eq S p g :
  level_loop S (p_xmax p) (p_ymax p) (seq 0 MAX_LEVELS) g (p_bundle p)
  = build_levels S p g.
Proof. exact (eq_refl (level_loop S (p_xmax p) (p_ymax p) (seq 0 MAX_LEVELS) g (p_bundle p))). Qed.

(** ** The two ways a call ends *)

Section outcome.
Context (S : Sampler) (path : string) (df : DataFrame)
  (fs : gmap string File) (g : rng S).
Local Abbreviation run := (write_transcripts S path df fs g).

Lemma convert_rows : rows (convert_gene_column df) = rows df.
Proof. done. Qed.

Lemma write_transcripts_Raise e :
  prepare (convert_gene_column df) = Raise e →
  run = {| out_df := convert_gene_column df; out_fs := fs; out_rng := g;
           out_stdout := []; out_levels := []; out_result := Raise e |}.
Proof. unfold write_transcripts. by intros ->. Qed.

Lemma write_transcripts_Ok p :
  prepare (convert_gene_column df) = Ok p →
  run = {| out_df := convert_gene_column df;
           out_fs := <[path := ZipStore (make_container p (build_levels S p g).1)]>
                       (delete path fs);
           out_rng := (build_levels S p g).2;
           out_stdout := level_line <$> (build_levels S p g).1;
           out_levels := (build_levels S p g).1;
           out_result := Ok () |}.
Proof. unfold write_transcripts. by intros ->. Qed.


Lemma levels_inv lv :
  lv ∈ out_levels run →
  ∃ p, prepare (convert_gene_column df) = Ok p
    ∧ out_levels run = (build_levels S p g).1.
Proof.
  destruct (prepare (convert_gene_column df)) as [p|e] eqn:Hp.
  - rewrite (write_transcripts_Ok p) by done. simpl. eauto.
  - rewrite (write_transcripts_Raise e) by done. simpl. by intros ?%elem_of_nil.
Qed.

Lemma written_inv c :
  written path run = Some c →
  ∃ p, prepare (convert_gene_column df) = Ok p
    ∧ out_levels run = (build_levels S p g).1
    ∧ c = make_container p (out_levels run).
Proof.
  destruct (prepare (convert_gene_column df)) as [p|e] eqn:Hp.
  - rewrite (write_transcripts_Ok p) by done. unfold written. simpl.
    rewrite lookup_insert_eq. intros [= <-]. eauto.
  - rewrite (write_transcripts_Raise e) by done. done.
Qed.

(** Every iteration works on rows of the full-resolution arrays, each
    taken at most once. *)
Lemma level_rows lv :
  lv ∈ out_levels run →
  Forall nonneg (rows df)
  ∧ ∃ origin, NoDup origin ∧ in_range (length (rows df)) origin
      ∧ lv_working lv = getitem_bundle (full_resolution (convert_gene_column df)) origin.
Proof.
  intros Hlv. destruct (levels_inv lv Hlv) as (p & Hp & Heq).
  rewrite Heq in Hlv. apply prepare_Ok_inv in Hp as (_ & Hnn & _ & Hb).
  split; [exact Hnn|]. rewrite <-build_levels_eq, Hb in Hlv.
  exact (level_loop_origin S _ _ _ _ _ _ lv
           (full_resolution_len (convert_gene_column df)) Hlv).
Qed.

Lemma level_rows_len lv :
  lv ∈ out_levels run →
  bundle_len (lv_working lv) (length (location (lv_working lv))).
Proof.
  intros (_ & origin & _ & Hr & ->)%level_rows.
  pose proof (getitem_bundle_len _ _ _
    (full_resolution_len (convert_gene_column df)) Hr) as Hlen.
  pose proof Hlen as [Hloc _]. rewrite Hloc. exact Hlen.
Qed.

Lemma level_inv_ok lv :
  lv ∈ out_levels run →
  ∃ p, prepare (convert_gene_column df) = Ok p
    ∧ level_ok S (p_xmax p) (p_ymax p) lv.
Proof.
  intros Hlv. destruct (levels_inv lv Hlv) as (p & Hp & Heq).
  exists p. split; [exact Hp|]. rewrite Heq, <-build_levels_eq in Hlv.
  exact (level_loop_level_ok S _ _ _ _ _ _ Hlv).
Qed.
End outcome.


(** ** From the container back to the loop *)

Section container.
Context (S : Sampler) (path : string) (df : DataFrame)
  (fs : gmap string File) (g : rng S).
Local Abbreviation run' := (write_transcripts S path df fs g).

(** A tile group of the container is a materialized tile of the iteration
    for its level, holding that iteration's arrays sliced by [loc]. *)
Lemma container_tile_inv c level tiles k tg :
  written path run' = Some c →
  (level, tiles) ∈ grids c →
  (k, tg) ∈ tiles →
  ∃ lv loc, lv ∈ out_levels run' ∧ lv_level lv = level
    ∧ (k, loc) ∈ lv_tiles lv
    ∧ tg_arrays tg = getitem_bundle (lv_working lv) loc
    ∧ tg_chunks tg = (length loc, 1%nat).
Proof.
  intros (p & _ & _ & ->)%written_inv. cbn [make_container grids].
  intros (lv & [= -> ->] & Hlv)%list_elem_of_fmap.
  intros ([k' loc] & [= -> ->] & Ht)%list_elem_of_fmap.
  exists lv, loc. by repeat split.
Qed.

(** A materialized tile has an enumerated key and holds exactly the
    positions whose key string is that key, at least one. *)
Lemma level_tile_inv lv k loc :
  lv ∈ out_levels run' →
  (k, loc) ∈ lv_tiles lv →
  ∃ tx ty, k = str_index tx ty
    ∧ loc = np_where (tiles_str_indices (tile_size (lv_level lv))
                        (location (lv_working lv))) k
    ∧ loc ≠ [].
Proof.
  intros (p & _ & [Htiles _])%level_inv_ok. rewrite Htiles.
  intros (tx & ty & _ & _ & ? & ? & ?)%scan_tiles_spec. eauto.
Qed.

(** The coordinates an iteration works on passed validation. *)
Lemma working_nonneg lv x y z :
  lv ∈ out_levels run' →
  (x, y, z) ∈ location (lv_working lv) →
  (0 <= x)%Q ∧ (0 <= y)%Q.
Proof.
  intros (Hnn & origin & _ & _ & ->)%level_rows. cbn [getitem_bundle location].
  intros Hin%getitem_elem_of. cbn [full_resolution location] in Hin.
  apply list_elem_of_fmap in Hin as (pt' & [= -> -> ->] & Hpt).
  rewrite convert_rows in Hpt.
  by apply (proj1 (Forall_forall _ _) Hnn).
Qed.

Lemma tile_loc_in_range lv k loc :
  lv ∈ out_levels run' →
  (k, loc) ∈ lv_tiles lv →
  NoDup loc ∧ in_range (length (location (lv_working lv))) loc.
Proof.
  intros Hlv (tx & ty & _ & -> & _)%level_tile_inv; [|done]. split.
  - apply np_where_NoDup.
  - pose proof (np_where_lt (tiles_str_indices (tile_size (lv_level lv))
                               (location (lv_working lv))) k) as Hr.
    unfold tiles_str_indices in Hr at 1. by rewrite length_fmap in Hr.
Qed.
End container.

(** ** Rows of the full-resolution arrays *)

(** The arrays of a selection [idx] of the table's rows: every row carries
    its point's coordinates and gene code, the constant columns, and its
    position in the table as identity. *)
Lemma full_resolution_getitem df idx :
  in_range (length (rows df)) idx →
  getitem_bundle (full_resolution df) idx =
    {| location := (λ p, (px p, py p, 0%Q)) <$> getitem (rows df) idx;
       valid := replicate (length idx) 1%Q;
       status := replicate (length idx) 0%Q;
       gene_identity :=
         (λ p, cat_code (df_categories df) (pgene p)) <$> getitem (rows df) idx;
       quality_score := replicate (length idx) QUALITY_SCORE;
       codeword_identity :=
         (λ p, (cat_code (df_categories df) (pgene p), sentinel))
           <$> getitem (rows df) idx;
       uuid := (λ i, (Z.of_nat i, sentinel)) <$> idx;
       transcript_id := (λ i, (Z.of_nat i, sentinel)) <$> idx |}.
Proof.
  intros Hr. unfold getitem_bundle, full_resolution. cbn.
  rewrite !getitem_fmap, !getitem_replicate, getitem_arange by done.
  by rewrite <-!list_fmap_compose.
Qed.

Lemma level_loop_lookup_0 S xmax ymax levels g w lv :
  (level_loop S xmax ymax levels g w).1 !! 0%nat = Some lv → lv_working lv = w.
Proof.
  destruct levels as [|level rest]; [done|].
  rewrite level_loop_cons. cbv zeta. case_decide; simpl; by intros [= <-].
Qed.

Section rows.
Context (S : Sampler) (path : string) (df : DataFrame)
  (fs : gmap string File) (g : rng S).
Local Abbreviation run'' := (write_transcripts S path df fs g).

(** Level 0 works on the full-resolution arrays. *)
Lemma level_0_full lv :
  out_levels run'' !! 0%nat = Some lv →
  lv_working lv = full_resolution (convert_gene_column df).
Proof.
  intros H0.
  assert (lv ∈ out_levels run'') as Hlv by by eapply list_elem_of_lookup_2.
  destruct (levels_inv S path df fs g lv Hlv) as (p & Hp & Heq).
  rewrite Heq, <-build_levels_eq in H0.
  apply level_loop_lookup_0 in H0. rewrite H0.
  by apply prepare_Ok_inv in Hp as (_ & _ & _ & ->).
Qed.

(** The rows of a tile group are rows of the full-resolution arrays, each
    taken at most once. *)
Lemma tile_rows c level tiles k tg :
  written path run'' = Some c →
  (level, tiles) ∈ grids c →
  (k, tg) ∈ tiles →
  ∃ idx, NoDup idx ∧ in_range (length (rows df)) idx
    ∧ tg_arrays tg = getitem_bundle (full_resolution (convert_gene_column df)) idx.
Proof.
  intros Hc Hlevel Htile.
  destruct (container_tile_inv S path df fs g c level tiles k tg Hc Hlevel Htile)
    as (lv & loc & Hlv & _ & Hloc & -> & _).
  destruct (tile_loc_in_range S path df fs g lv k loc Hlv Hloc) as [Hnd _].
  destruct (level_rows S path df fs g lv Hlv) as (_ & origin & Hndo & Hr & ->).
  exists (getitem origin loc). split; [by apply NoDup_getitem|].
  split; [by apply in_range_getitem|].
  apply (getitem_bundle_getitem _ (length (rows df))); [|done].
  apply (full_resolution_len (convert_gene_column df)).
Qed.
End rows.

(** ** The gene catalog *)

(** The code of a category is its position. *)
Lemma cat_code_elem cats s :
  s ∈ cats → ∃ i, cat_code cats s = Z.of_nat i ∧ cats !! i = Some s.
Proof.
  induction cats as [|c cats IH]; [by intros ?%elem_of_nil|].
  intros Hin. simpl. case_decide as Hc.
  - exists 0%nat. by subst.
  - apply elem_of_cons in Hin as [->|Hin]; [done|].
    destruct (IH Hin) as (i & Hcode & Hi). exists (Datatypes.S i).
    rewrite Hcode. case_decide; [lia|]. split; [lia|done].
Qed.

Lemma cat_code_lookup cats i s :
  NoDup cats → cats !! i = Some s → cat_code cats s = Z.of_nat i.
Proof.
  intros Hnd Hi.
  destruct (cat_code_elem cats s) as (j & Hcode & Hj).
  { by eapply list_elem_of_lookup_2. }
  rewrite Hcode. f_equal. by eapply NoDup_lookup.
Qed.

(** The dict comprehension of lines 58-60 inserts the pairs in order. *)
Lemma foldl_insert_reverse (l : list (string * Z)) (m : gmap string Z) :
  foldl (λ m kv, <[kv.1 := kv.2]> m) m l
  = foldr (λ kv m, <[kv.1 := kv.2]> m) m (reverse l).
Proof.
  revert m. induction l as [|kv l IH]; intros m; [done|].
  simpl. by rewrite IH, reverse_cons, foldr_app.
Qed.

Lemma gene_index_map_lookup names n i s :
  NoDup names →
  names !! i = Some s ↔
  gene_index_map (make_attrs names n) !! s = Some (Z.of_nat i).
Proof.
  intros Hnd. cbn [make_attrs gene_index_map].
  rewrite foldl_insert_reverse.
  change (foldr _ ∅ ?l) with (list_to_map (M := gmap string Z) l).
  assert ((zip names (np_arange (length names))).*1 = names) as Hfst.
  { apply fst_zip. unfold np_arange. by rewrite length_fmap, length_seq. }
  clear n.
  rewrite <-elem_of_list_to_map.
  2:{ rewrite fmap_reverse, Hfst. by rewrite reverse_Permutation. }
  rewrite elem_of_reverse, list_elem_of_lookup. unfold np_arange. split.
  - intros Hi. exists i. apply lookup_zip_with_Some. exists s, (Z.of_nat i).
    split; [done|]. split; [done|].
    rewrite list_lookup_fmap, lookup_seq_lt; [done|]. by eapply lookup_lt_Some.
  - intros (j & Hj). apply lookup_zip_with_Some in Hj as (s' & z & [= <- <-] & Hs & Hz).
    rewrite list_lookup_fmap in Hz.
    destruct (seq 0 (length names) !! j) as [j'|] eqn:Hseq; [|done].
    apply lookup_seq in Hseq as [-> _]. simpl in Hz.
    injection Hz as Hz. apply Nat2Z.inj in Hz. by subst.
Qed.

(** The categories of a column of strings: ascending, distinct, and exactly
    the values of the column. *)
Lemma astype_category_object values :
  let cats := astype_category values ObjectDtype in
  StronglySorted String.le cats ∧ NoDup cats ∧ ∀ s, s ∈ cats ↔ s ∈ values.
Proof.
  cbn [astype_category]. split; [|split].
  - apply (StronglySorted_merge_sort String.le).
  - rewrite (merge_sort_Permutation String.le). apply NoDup_remove_dups.
  - intros s. rewrite (merge_sort_Permutation String.le). apply elem_of_remove_dups.
Qed.

(** The root attributes come from the categories of line 24 and the number
    of rows. *)
Lemma written_root_attrs S path df fs g c :
  written path (write_transcripts S path df fs g) = Some c →
  root_attrs c
  = make_attrs (astype_category (pgene <$> rows df) (gene_dtype df)) (length (rows df)).
Proof.
  intros (p & Hp & _ & ->)%written_inv. cbn [make_container root_attrs].
  apply prepare_Ok_inv in Hp as (_ & _ & -> & ->).
  cbn [full_resolution location]. by rewrite length_fmap.
Qed.


(** ** Counting the rows of a level's tiles *)

Lemma length_filter_fmap {A B} (f : A → B) (P : B → Prop) `{∀ x, Decision (P x)} l :
  length (filter P (f <$> l)) = length (filter (P ∘ f) l).
Proof.
  induction l as [|x l IH]; [done|]. rewrite fmap_cons, !filter_cons. simpl.
  destruct (decide (P (f x))); simpl; by rewrite IH.
Qed.

Lemma np_where_cons_length (s : string) strs k :
  length (np_where (s :: strs) k)
  = ((if decide (s = k) then 1 else 0) + length (np_where strs k))%nat.
Proof.
  unfold np_where. cbn [length seq]. rewrite filter_cons, <-fmap_S_seq.
  cbn [lookup list_lookup].
  destruct (decide (Some s = Some k)) as [[= ->]|Hne].
  - rewrite decide_True by done. cbn [length]. by rewrite length_filter_fmap.
  - rewrite decide_False by congruence. by rewrite length_filter_fmap.
Qed.

Lemma sum_list_with_bind {A B} (f : B → nat) (h : A → list B) l :
  sum_list_with f (l ≫= h) = sum_list_with (λ x, sum_list_with f (h x)) l.
Proof.
  induction l as [|x l IH]; [done|].
  by rewrite bind_cons, sum_list_with_app, IH.
Qed.

Lemma sum_list_with_ext {A} (f1 f2 : A → nat) l :
  (∀ x, x ∈ l → f1 x = f2 x) → sum_list_with f1 l = sum_list_with f2 l.
Proof.
  induction l as [|x l IH]; [done|]. intros Hext. simpl.
  rewrite (Hext x) by left. rewrite IH; [done|]. intros y Hy. apply Hext. by right.
Qed.

Lemma sum_list_with_plus {A} (f1 f2 : A → nat) l :
  sum_list_with (λ x, f1 x + f2 x)%nat l
  = (sum_list_with f1 l + sum_list_with f2 l)%nat.
Proof. induction l as [|x l IH]; simpl; lia. Qed.

Lemma sum_list_with_indicator {A} `{EqDecision A} (x0 : A) l :
  NoDup l →
  sum_list_with (λ x, if decide (x0 = x) then 1 else 0)%nat l
  = (if decide (x0 ∈ l) then 1 else 0)%nat.
Proof.
  induction 1 as [|x l Hx Hnd IH]; cbn [sum_list_with].
  - case_decide as Hin; [by apply elem_of_nil in Hin|done].
  - rewrite IH. destruct (decide (x0 = x)) as [->|Hne].
    + rewrite decide_False by done. by rewrite decide_True by left.
    + destruct (decide (x0 ∈ l)) as [Hl|Hl].
      * by rewrite decide_True by (by right).
      * rewrite decide_False; [done|]. by intros [?|?]%elem_of_cons.
Qed.

(** The keys the scan enumerates. *)
Lemma scan_tiles_sum strs nx ny :
  sum_list_with (λ t, length t.2) (scan_tiles strs nx ny)
  = sum_list_with (λ k, length (np_where strs k))
      (tx ← seqZ 0 nx; ty ← seqZ 0 ny; [str_index tx ty]).
Proof.
  unfold scan_tiles. rewrite !sum_list_with_bind.
  apply sum_list_with_ext. intros tx _. rewrite !sum_list_with_bind.
  apply sum_list_with_ext. intros ty _.
  case_decide as Hlen; simpl; lia.
Qed.

Lemma scan_keys_NoDup nx ny :
  NoDup (tx ← seqZ 0 nx; ty ← seqZ 0 ny; [str_index tx ty]).
Proof.
  apply NoDup_bind; [| |apply NoDup_seqZ].
  - intros tx tx' k _ _ (ty & ->%list_elem_of_singleton & _)%list_elem_of_bind
      (ty' & Heq%list_elem_of_singleton & _)%list_elem_of_bind.
    by apply str_index_inj in Heq as [-> _].
  - intros tx _. apply NoDup_bind; [| |apply NoDup_seqZ].
    + intros ty ty' k _ _ ->%list_elem_of_singleton Heq%list_elem_of_singleton.
      by apply str_index_inj in Heq as [_ ->].
    + intros ty _. apply NoDup_singleton.
Qed.

Lemma scan_keys_elem nx ny k :
  k ∈ (tx ← seqZ 0 nx; ty ← seqZ 0 ny; [str_index tx ty])
  ↔ ∃ tx ty, 0 ≤ tx < nx ∧ 0 ≤ ty < ny ∧ k = str_index tx ty.
Proof.
  rewrite list_elem_of_bind. split.
  - intros (tx & (ty & ->%list_elem_of_singleton & Hty%elem_of_seqZ)%list_elem_of_bind
            & Htx%elem_of_seqZ).
    exists tx, ty. repeat split; lia.
  - intros (tx & ty & Htx & Hty & ->). exists tx. split; [|apply elem_of_seqZ; lia].
    apply list_elem_of_bind. exists ty. split; [by apply list_elem_of_singleton|].
    apply elem_of_seqZ. lia.
Qed.

(** When every key string of the working set is among the enumerated keys,
    the tiles of the scan hold every row exactly once. *)
Lemma scan_tiles_count strs nx ny :
  (∀ s, s ∈ strs → ∃ tx ty, 0 ≤ tx < nx ∧ 0 ≤ ty < ny ∧ s = str_index tx ty) →
  sum_list_with (λ t, length t.2) (scan_tiles strs nx ny) = length strs.
Proof.
  intros Hin. rewrite scan_tiles_sum.
  induction strs as [|s strs IH].
  - rewrite (sum_list_with_ext _ (λ _, 0%nat)) by done.
    generalize (tx ← seqZ 0 nx; ty ← seqZ 0 ny; [str_index tx ty]).
    intros ks. induction ks as [|k ks IHk]; [done|exact IHk].
  - rewrite (sum_list_with_ext _
      (λ k, (if decide (s = k) then 1 else 0) + length (np_where strs k))%nat)
      by (intros; apply np_where_cons_length).
    rewrite sum_list_with_plus, IH by (intros; apply Hin; by right).
    rewrite sum_list_with_indicator by apply scan_keys_NoDup.
    rewrite decide_True; [done|]. apply scan_keys_elem, Hin. left.
Qed.

(** Away from the upper edge of the bounding box the counts of a level add
    up to its working rows: when every row's tile index is below the number
    of tiles on both axes, every row is in exactly one materialized tile. *)
Lemma counts_cover_level_off_the_edge S path df fs g p lv :
  prepare (convert_gene_column df) = Ok p →
  lv ∈ out_levels (write_transcripts S path df fs g) →
  (∀ x y z, (x, y, z) ∈ location (lv_working lv) →
     Qfloor (x / inject_Z (tile_size (lv_level lv)))
       < n_tiles (tile_size (lv_level lv)) (p_xmax p)
     ∧ Qfloor (y / inject_Z (tile_size (lv_level lv)))
       < n_tiles (tile_size (lv_level lv)) (p_ymax p)) →
  sum_list_with (λ t, length t.2) (lv_tiles lv) = length (location (lv_working lv)).
Proof.
  intros Hp Hlv Hinside.
  destruct (level_inv_ok S path df fs g lv Hlv) as (p' & Hp' & Htiles & _).
  rewrite Hp in Hp'. injection Hp' as <-. rewrite Htiles.
  rewrite scan_tiles_count; [unfold tiles_str_indices; by rewrite length_fmap|].
  intros s (r & -> & Hr)%list_elem_of_fmap. destruct r as [[x y] z].
  destruct (working_nonneg S path df fs g lv x y z Hlv Hr) as [Hx Hy].
  destruct (Hinside x y z Hr) as [Hfx Hfy]. cbn [fst snd].
  exists (tile_index (tile_size (lv_level lv)) x),
         (tile_index (tile_size (lv_level lv)) y).
  rewrite !tile_index_nonneg by (done || apply tile_size_pos).
  split; [|split; [|done]].
  - split; [|done]. rewrite <-(tile_index_nonneg _ x) by (done || apply tile_size_pos).
    unfold tile_index. lia.
  - split; [|done]. rewrite <-(tile_index_nonneg _ y) by (done || apply tile_size_pos).
    unfold tile_index. lia.
Qed.

(** * The claims *)

(** ** Failures before any write *)

(** C10: for a table with zero rows [write_transcripts] raises during
    attribute preparation (the maximum of line 29 over an empty array is a
    [ValueError]) and the file system is as before: nothing is deleted,
    opened or written, and no level is built. *)
Theorem empty_table_raises S path df fs g :
  rows df = [] →
  let o := write_transcripts S path df fs g in
  out_result o = Raise ValueError ∧ out_fs o = fs
  ∧ out_levels o = [] ∧ out_stdout o = [].
Proof.
  intros Hnil o. subst o.
  rewrite (write_transcripts_Raise S path df fs g ValueError); [done|].
  by apply prepare_nil.
Qed.

Lemma empty_table_raises_witness :
  let o := write_transcripts tail_sampler "out.zarr.zip" empty_df old_fs () in
  out_result o = Raise ValueError ∧ out_fs o = old_fs
  ∧ out_levels o = [] ∧ out_stdout o = [].
Proof.
  apply (empty_table_raises tail_sampler "out.zarr.zip" empty_df old_fs ()).
  reflexivity.
Defined.

(** C6: if some input point has a negative [x] or [y], the call fails the
    assertions of lines 31-32, and the file system is as before: an existing
    file at the target path is still there, no store was opened, no group or
    array was created. *)
Theorem negative_coordinate_aborts S path df fs g pt :
  pt ∈ rows df →
  (px pt < 0 ∨ py pt < 0)%Q →
  let o := write_transcripts S path df fs g in
  out_result o = Raise AssertionError ∧ out_fs o = fs
  ∧ out_levels o = [] ∧ out_stdout o = [] ∧ out_rng o = g.
Proof.
  intros Hin Hneg o. subst o.
  assert (rows (convert_gene_column df) ≠ []) as Hne.
  { rewrite convert_rows. intros Hnil. rewrite Hnil in Hin. by apply elem_of_nil in Hin. }
  destruct (prepare_cons _ Hne) as [[Hnn _]|[_ Hp]].
  - rewrite convert_rows in Hnn.
    apply (proj1 (Forall_forall _ _)) with (x := pt) in Hnn; [|done].
    destruct Hnn as [Hx Hy].
    destruct Hneg as [Hlt|Hlt]; apply Qlt_not_le in Hlt; contradiction.
  - by rewrite (write_transcripts_Raise S path df fs g AssertionError).
Qed.

Lemma negative_coordinate_aborts_witness :
  let o := write_transcripts tail_sampler "out.zarr.zip" negative_df old_fs () in
  out_result o = Raise AssertionError ∧ out_fs o = old_fs
  ∧ out_levels o = [] ∧ out_stdout o = [] ∧ out_rng o = ().
Proof.
  apply (negative_coordinate_aborts tail_sampler "out.zarr.zip" negative_df old_fs ()
           (pt (-1) 5 "B")).
  - unfold negative_df. simpl. apply list_elem_of_further, list_elem_of_here.
  - left. reflexivity.
Defined.

(** ** The caller's table *)

(** C9, as stated, fails: after a call on a table of strings the gene
    column of the caller's table is categorical. *)
Lemma caller_table_changed :
  out_df (write_transcripts tail_sampler "out.zarr.zip" example_df ∅ ()) ≠ example_df.
Proof.
  intros Heq. apply (f_equal gene_dtype) in Heq.
  vm_compute in Heq. discriminate.
Qed.

(** C9, amended: a call, returning or raising, leaves every row of the
    caller's table (x, y and gene name) as it was and replaces the dtype of
    the gene column by the categorical dtype of line 24. *)
Theorem caller_table_rows_kept S path df fs g :
  let o := write_transcripts S path df fs g in
  rows (out_df o) = rows df
  ∧ gene_dtype (out_df o)
    = CategoryDtype (astype_category (pgene <$> rows df) (gene_dtype df)).
Proof.
  intros o. subst o.
  destruct (prepare (convert_gene_column df)) as [p|e] eqn:Hp.
  - by rewrite (write_transcripts_Ok S path df fs g p).
  - by rewrite (write_transcripts_Raise S path df fs g e).
Qed.

(** ** Tiles *)

(** C1 fails on the code: a point whose coordinate equals the bounding-box
    maximum, when that maximum is a multiple of the tile size, has tile
    index [ceil(xmax / tile_size)], which [range] does not reach.  For the
    single point (250, 10) level 0 works on one point and records no tile
    and no object. *)
Theorem boundary_point_not_counted :
  let o := write_transcripts tail_sampler "out.zarr.zip" boundary_df ∅ () in
  out_result o = Ok ()
  ∧ (λ lv, length (location (lv_working lv))) <$> out_levels o = [1%nat]
  ∧ out_stdout o = ["Level 0: 1 transcripts"]
  ∧ (grid_number_objects ∘ grids_attrs <$> written "out.zarr.zip" o) = Some [[]]
  ∧ (grid_keys ∘ grids_attrs <$> written "out.zarr.zip" o) = Some [[]]
  ∧ (grids <$> written "out.zarr.zip" o) = Some [(0%nat, [])].
Proof. vm_compute. done. Qed.

(** C2: in the container of a call that returned, every tile group is named
    by a key [tx,ty], is not empty, and every row of its [location] array
    has [floor(x / tile_size) = tx] and [floor(y / tile_size) = ty] for the
    tile size [GRID_SIZE * 2^level] of its level; a key without points has
    no tile group. *)
Theorem tile_rows_match_key S path df fs g c level tiles k tg :
  written path (write_transcripts S path df fs g) = Some c →
  (level, tiles) ∈ grids c →
  (k, tg) ∈ tiles →
  ∃ tx ty, k = str_index tx ty
    ∧ location (tg_arrays tg) ≠ []
    ∧ ∀ x y z, (x, y, z) ∈ location (tg_arrays tg) →
        Qfloor (x / inject_Z (tile_size level)) = tx
        ∧ Qfloor (y / inject_Z (tile_size level)) = ty.
Proof.
  intros Hc Hlevel Htile.
  destruct (container_tile_inv S path df fs g c level tiles k tg Hc Hlevel Htile)
    as (lv & loc & Hlv & <- & Hloc & Harr & _).
  destruct (level_tile_inv S path df fs g lv k loc Hlv Hloc)
    as (tx & ty & Hk & Hwhere & Hne).
  destruct (tile_loc_in_range S path df fs g lv k loc Hlv Hloc) as [_ Hr].
  exists tx, ty. rewrite Harr. cbn [getitem_bundle location].
  split; [done|]. split.
  - intros Hnil. apply (f_equal length) in Hnil.
    rewrite getitem_length in Hnil by done. by destruct loc.
  - intros x y z Hin.
    assert ((x, y, z) ∈ location (lv_working lv)) as Hw by by eapply getitem_elem_of.
    destruct (working_nonneg S path df fs g lv x y z Hlv Hw) as [Hx Hy].
    unfold getitem in Hin. apply list_elem_of_omap in Hin as (j & Hj & Hrow).
    rewrite Hwhere in Hj. apply np_where_spec in Hj.
    unfold tiles_str_indices in Hj. rewrite list_lookup_fmap, Hrow in Hj.
    simpl in Hj. injection Hj as Hj. rewrite Hk in Hj.
    apply str_index_inj in Hj as [Htx Hty].
    rewrite tile_index_nonneg in Htx, Hty by (done || apply tile_size_pos).
    done.
Qed.

Lemma tile_rows_match_key_witness :
  ∃ tg tx ty, "1,1" = str_index tx ty
    ∧ location (tg_arrays tg) ≠ []
    ∧ ∀ x y z, (x, y, z) ∈ location (tg_arrays tg) →
        Qfloor (x / inject_Z (tile_size 0)) = tx
        ∧ Qfloor (y / inject_Z (tile_size 0)) = ty.
Proof.
  eexists.
  eapply (tile_rows_match_key tail_sampler "out.zarr.zip" example_df ∅ ()
            _ 0%nat _ "1,1" _).
  - vm_compute. reflexivity.
  - cbn [grids]. apply list_elem_of_here.
  - do 2 apply list_elem_of_further. apply list_elem_of_here.
Defined.

(** ** Subsampling *)



(** ** Termination *)

(** C4: when level [L] of the loop is the first level at which
    [ceil(xmax / tile_size) * ceil(ymax / tile_size) = 1], for the bounding
    box of the full-resolution table, the loop builds exactly the levels
    [0..L]: level [L] draws no indices, every earlier level does, the
    container has [L + 1] level groups and [L + 1] entries in each per-level
    list, and [number_levels] is recorded as [L + 1]. *)
Theorem loop_stops_at_first_single_tile_level S path df fs g p L :
  prepare (convert_gene_column df) = Ok p →
  (L < MAX_LEVELS)%nat →
  terminal (p_xmax p) (p_ymax p) L →
  (∀ l, (l < L)%nat → ¬ terminal (p_xmax p) (p_ymax p) l) →
  let o := write_transcripts S path df fs g in
  length (out_levels o) = (L + 1)%nat
  ∧ (∃ lv, out_levels o !! L = Some lv ∧ lv_level lv = L ∧ lv_sub_indices lv = None)
  ∧ (∀ l lv, (l < L)%nat → out_levels o !! l = Some lv → is_Some (lv_sub_indices lv))
  ∧ ∃ c, written path o = Some c
      ∧ number_levels (grids_attrs c) = Some (L + 1)%nat
      ∧ length (grids c) = (L + 1)%nat
      ∧ length (grid_keys (grids_attrs c)) = (L + 1)%nat
      ∧ length (grid_number_objects (grids_attrs c)) = (L + 1)%nat
      ∧ length (grid_array_shapes (grids_attrs c)) = (L + 1)%nat.
Proof.
  intros Hp HL Ht Hfirst o. subst o.
  rewrite (write_transcripts_Ok S path df fs g p Hp). unfold written.
  cbn [out_levels out_result out_fs]. rewrite lookup_insert_eq.
  rewrite <-build_levels_eq.
  set (lvs := (level_loop S (p_xmax p) (p_ymax p) (seq 0 MAX_LEVELS) g (p_bundle p)).1).
  destruct (level_loop_break S (p_xmax p) (p_ymax p) (seq 0 MAX_LEVELS) g (p_bundle p) L L)
    as (Hlen & lv & Hlv & Hlevel & Hsub).
  { by apply lookup_seq_lt. }
  { exact Ht. }
  { intros j l Hj [-> _]%lookup_seq. by apply Hfirst. }
  fold lvs in Hlen, Hlv. split; [exact Hlen|]. split; [by exists lv|]. split.
  - intros l lv' Hl Hlv'.
    assert (lv' ∈ lvs) as Hin by by eapply list_elem_of_lookup_2.
    apply level_loop_level_ok in Hin as [_ Hok].
    apply level_loop_lookup_level in Hlv' as [Heq _]%lookup_seq.
    destruct (lv_sub_indices lv') as [sub|]; [by eexists|].
    exfalso. apply (Hfirst l Hl). rewrite Heq in Hok. exact Hok.
  - eexists. split; [reflexivity|].
    cbn [make_container grids grids_attrs make_grids_attrs number_levels
           grid_keys grid_number_objects grid_array_shapes].
    rewrite !length_fmap, Hlen. repeat split; try reflexivity.
    unfold recorded_number_levels. rewrite last_lookup, Hlen.
    replace (Nat.pred (L + 1)) with L by lia. rewrite Hlv, Hsub, Hlevel. done.
Qed.

Lemma loop_stops_at_first_single_tile_level_witness :
  let o := write_transcripts tail_sampler "out.zarr.zip" example_df ∅ () in
  length (out_levels o) = (1 + 1)%nat
  ∧ (∃ lv, out_levels o !! 1%nat = Some lv ∧ lv_level lv = 1%nat
       ∧ lv_sub_indices lv = None)
  ∧ (∀ l lv, (l < 1)%nat → out_levels o !! l = Some lv → is_Some (lv_sub_indices lv))
  ∧ ∃ c, written "out.zarr.zip" o = Some c
      ∧ number_levels (grids_attrs c) = Some (1 + 1)%nat
      ∧ length (grids c) = (1 + 1)%nat
      ∧ length (grid_keys (grids_attrs c)) = (1 + 1)%nat
      ∧ length (grid_number_objects (grids_attrs c)) = (1 + 1)%nat
      ∧ length (grid_array_shapes (grids_attrs c)) = (1 + 1)%nat.
Proof.
  eapply (loop_stops_at_first_single_tile_level tail_sampler "out.zarr.zip"
            example_df ∅ () _ 1%nat).
  - vm_compute. reflexivity.
  - vm_compute. lia.
  - vm_compute. reflexivity.
  - intros l Hl. assert (l = 0%nat) as -> by lia. vm_compute. discriminate.
Defined.

(** ** Identity columns *)

(** C8: the first column of [uuid] and [id] is [0..num_transcripts-1] over
    the full-resolution arrays (which level 0 works on); the working arrays
    of every level and the arrays of every tile group are rows of the
    full-resolution arrays, each taken at most once, and each such row
    carries in [uuid] and [id] its position in the full-resolution table
    with the sentinel 65535 beside it. *)
Theorem identity_columns_keep_full_resolution_index S path df fs g :
  let o := write_transcripts S path df fs g in
  let full := full_resolution (convert_gene_column df) in
  let ident := λ i : nat, (Z.of_nat i, 65535) in
  uuid full = ident <$> seq 0 (length (rows df))
  ∧ transcript_id full = ident <$> seq 0 (length (rows df))
  ∧ (∀ lv, out_levels o !! 0%nat = Some lv → lv_working lv = full)
  ∧ (∀ lv, lv ∈ out_levels o →
       ∃ origin, NoDup origin ∧ in_range (length (rows df)) origin
         ∧ lv_working lv = getitem_bundle full origin
         ∧ uuid (lv_working lv) = ident <$> origin
         ∧ transcript_id (lv_working lv) = ident <$> origin)
  ∧ (∀ c level tiles k tg,
       written path o = Some c → (level, tiles) ∈ grids c → (k, tg) ∈ tiles →
       ∃ idx, NoDup idx ∧ in_range (length (rows df)) idx
         ∧ tg_arrays tg = getitem_bundle full idx
         ∧ uuid (tg_arrays tg) = ident <$> idx
         ∧ transcript_id (tg_arrays tg) = ident <$> idx).
Proof.
  intros o full ident. subst o.
  assert (∀ b idx, in_range (length (rows df)) idx → b = getitem_bundle full idx →
            uuid b = ident <$> idx ∧ transcript_id b = ident <$> idx) as Hid.
  { intros b idx Hr ->. unfold full.
    rewrite full_resolution_getitem by (by rewrite convert_rows). done. }
  split; [|split; [|split; [|split]]].
  - unfold full, full_resolution, np_arange. cbn [uuid].
    by rewrite convert_rows, <-list_fmap_compose.
  - unfold full, full_resolution, np_arange. cbn [transcript_id].
    by rewrite convert_rows, <-list_fmap_compose.
  - apply level_0_full.
  - intros lv Hlv.
    destruct (level_rows S path df fs g lv Hlv) as (_ & origin & Hnd & Hr & Hw).
    exists origin. destruct (Hid _ _ Hr Hw). done.
  - intros c level tiles k tg Hc Hlevel Htile.
    destruct (tile_rows S path df fs g c level tiles k tg Hc Hlevel Htile)
      as (idx & Hnd & Hr & Hw).
    exists idx. destruct (Hid _ _ Hr Hw). done.
Qed.

(** ** Gene codes *)

(** C5 as claimed fails for a gene column that is categorical already:
    [astype("category")] keeps its categories in their own order, here
    ["B"; "A"], so the catalog is not in ascending order, and ["A"], the
    first distinct name in ascending order, has code 1. *)
Lemma categorical_catalog_keeps_own_order :
  ∃ c,
    written "out.zarr.zip"
      (write_transcripts tail_sampler "out.zarr.zip" categorical_df ∅ ()) = Some c
    ∧ gene_names (root_attrs c) = ["B"; "A"]
    ∧ ¬ StronglySorted String.le (gene_names (root_attrs c))
    ∧ gene_index_map (root_attrs c) !! "A" = Some 1
    ∧ (gene_identity ∘ lv_working
         <$> out_levels (write_transcripts tail_sampler "out.zarr.zip" categorical_df ∅ ()))
      = [[1; 0]].
Proof.
  eexists. split; [vm_compute; reflexivity|].
  split; [reflexivity|]. split.
  - cbn [root_attrs gene_names]. intros [Hle _]%StronglySorted_cons.
    apply Forall_cons in Hle as [Hle _]. by vm_compute in Hle.
  - split; vm_compute; reflexivity.
Qed.

(** C5, amended: for a table whose gene column holds strings (it is not
    categorical already), the catalog written to the container lists the
    distinct gene names in ascending lexicographic order; the code of a name
    is its position ([gene_index_map] and the catalog are inverse to each
    other, the codes are [0..number_genes-1]); and at every level, in the
    working arrays and in every tile group, a row is a row of the input
    table (each at most once) and carries, in [gene_identity] and in the
    first column of [codeword_identity], the catalog code of that point's
    gene name. *)
Theorem gene_catalog_sorted_and_stable S path df fs g c :
  gene_dtype df = ObjectDtype →
  written path (write_transcripts S path df fs g) = Some c →
  let o := write_transcripts S path df fs g in
  let names := gene_names (root_attrs c) in
  let code := λ pt : Point, cat_code names (pgene pt) in
  let carries := λ (b : Bundle) (idx : list nat),
    location b = (λ pt, (px pt, py pt, 0%Q)) <$> getitem (rows df) idx
    ∧ gene_identity b = code <$> getitem (rows df) idx
    ∧ codeword_identity b = (λ pt, (code pt, 65535)) <$> getitem (rows df) idx in
  StronglySorted String.le names ∧ NoDup names
  ∧ (∀ s, s ∈ names ↔ ∃ pt, pt ∈ rows df ∧ pgene pt = s)
  ∧ number_genes (root_attrs c) = length names
  ∧ codeword_gene_names (root_attrs c) = names
  ∧ codeword_gene_mapping (root_attrs c) = Z.of_nat <$> seq 0 (length names)
  ∧ (∀ i s, names !! i = Some s ↔
            gene_index_map (root_attrs c) !! s = Some (Z.of_nat i))
  ∧ (∀ pt, pt ∈ rows df → ∃ i, code pt = Z.of_nat i ∧ names !! i = Some (pgene pt))
  ∧ (∀ lv, lv ∈ out_levels o →
       ∃ origin, NoDup origin ∧ in_range (length (rows df)) origin
         ∧ carries (lv_working lv) origin)
  ∧ (∀ level tiles k tg, (level, tiles) ∈ grids c → (k, tg) ∈ tiles →
       ∃ idx, NoDup idx ∧ in_range (length (rows df)) idx
         ∧ carries (tg_arrays tg) idx).
Proof.
  intros Hdt Hc o names code carries. subst o.
  pose proof (written_root_attrs S path df fs g c Hc) as Hroot.
  rewrite Hdt in Hroot.
  assert (names = astype_category (pgene <$> rows df) ObjectDtype) as Hnames
    by (unfold names; by rewrite Hroot).
  destruct (astype_category_object (pgene <$> rows df)) as (Hsorted & Hnd & Hmem).
  rewrite <-Hnames in Hsorted, Hnd, Hmem.
  assert (df_categories (convert_gene_column df) = names) as Hcats.
  { unfold df_categories, convert_gene_column. cbn. by rewrite Hdt. }
  assert (∀ b idx, in_range (length (rows df)) idx →
            b = getitem_bundle (full_resolution (convert_gene_column df)) idx →
            carries b idx) as Hcarries.
  { intros b idx Hr ->.
    rewrite full_resolution_getitem by (by rewrite convert_rows).
    unfold carries, code. cbn [location gene_identity codeword_identity].
    by rewrite Hcats, convert_rows. }
  split; [exact Hsorted|]. split; [exact Hnd|]. split.
  { intros s. rewrite Hmem, list_elem_of_fmap. split.
    - intros (pt & -> & Hpt). eauto.
    - intros (pt & Hpt & <-). eauto. }
  split; [by unfold names; rewrite Hroot|].
  split; [by unfold names; rewrite Hroot|].
  split; [by unfold names; rewrite Hroot|].
  split.
  { intros i s. rewrite Hroot, <-Hnames.
    rewrite (gene_index_map_lookup names (length (rows df)) i s Hnd).
    by rewrite Hnames. }
  split.
  { intros pt Hpt. apply cat_code_elem, Hmem, list_elem_of_fmap. eauto. }
  split.
  - intros lv Hlv.
    destruct (level_rows S path df fs g lv Hlv) as (_ & origin & Hndo & Hr & Hw).
    exists origin. split; [done|]. split; [done|]. by apply Hcarries.
  - intros level tiles k tg Hlevel Htile.
    destruct (tile_rows S path df fs g c level tiles k tg Hc Hlevel Htile)
      as (idx & Hndi & Hr & Hw).
    exists idx. split; [done|]. split; [done|]. by apply Hcarries.
Qed.

Lemma gene_catalog_sorted_and_stable_witness :
  ∃ c,
  let o := write_transcripts tail_sampler "out.zarr.zip" example_df ∅ () in
  let names := gene_names (root_attrs c) in
  let code := λ pt : Point, cat_code names (pgene pt) in
  let carries := λ (b : Bundle) (idx : list nat),
    location b = (λ pt, (px pt, py pt, 0%Q)) <$> getitem (rows example_df) idx
    ∧ gene_identity b = code <$> getitem (rows example_df) idx
    ∧ codeword_identity b
      = (λ pt, (code pt, 65535)) <$> getitem (rows example_df) idx in
  StronglySorted String.le names ∧ NoDup names
  ∧ (∀ s, s ∈ names ↔ ∃ pt, pt ∈ rows example_df ∧ pgene pt = s)
  ∧ number_genes (root_attrs c) = length names
  ∧ codeword_gene_names (root_attrs c) = names
  ∧ codeword_gene_mapping (root_attrs c) = Z.of_nat <$> seq 0 (length names)
  ∧ (∀ i s, names !! i = Some s ↔
            gene_index_map (root_attrs c) !! s = Some (Z.of_nat i))
  ∧ (∀ pt, pt ∈ rows example_df →
       ∃ i, code pt = Z.of_nat i ∧ names !! i = Some (pgene pt))
  ∧ (∀ lv, lv ∈ out_levels o →
       ∃ origin, NoDup origin ∧ in_range (length (rows example_df)) origin
         ∧ carries (lv_working lv) origin)
  ∧ (∀ level tiles k tg, (level, tiles) ∈ grids c → (k, tg) ∈ tiles →
       ∃ idx, NoDup idx ∧ in_range (length (rows example_df)) idx
         ∧ carries (tg_arrays tg) idx).
Proof.
  eexists.
  eapply (gene_catalog_sorted_and_stable tail_sampler "out.zarr.zip" example_df ∅ () _).
  - reflexivity.
  - vm_compute. reflexivity.
Defined.

(** The level-1 row of the example is the fourth point of the table: it
    keeps identity 3 and gene code 2. *)
Example subsampled_row_keeps_identity :
  (λ lv, (uuid (lv_working lv), gene_identity (lv_working lv)))
    <$> out_levels (write_transcripts tail_sampler "out.zarr.zip" example_df ∅ ())
  = [([(0, 65535); (1, 65535); (2, 65535); (3, 65535)], [0; 1; 0; 2]);
     ([(3, 65535)], [2])].
Proof. vm_compute. reflexivity. Qed.

(** ** Small and empty levels *)




(** * Further properties of the writer *)

(** ** Tile keys of a level *)

(** The keys of the materialized tiles are the enumerated keys that have
    points, in enumeration order. *)
Lemma scan_tiles_fst strs nx ny :
  (scan_tiles strs nx ny).*1
  = filter (λ k, np_where strs k ≠ [])
      (tx ← seqZ 0 nx; ty ← seqZ 0 ny; [str_index tx ty]).
Proof.
  unfold scan_tiles. generalize (seqZ 0 nx). intros ltx.
  induction ltx as [|tx ltx IHx]; [done|].
  rewrite !bind_cons, fmap_app, filter_app, IHx. f_equal.
  generalize (seqZ 0 ny). intros lty.
  induction lty as [|ty lty IHy]; [done|].
  rewrite !bind_cons, fmap_app, filter_app, IHy. f_equal.
  rewrite filter_cons, filter_nil.
  destruct (decide (length (np_where strs (str_index tx ty)) = 0%nat)) as [H0|H0];
    destruct (decide (np_where strs (str_index tx ty) ≠ [])) as [Hn|Hn]; try done.
  - by apply nil_length_inv in H0.
  - destruct (np_where strs (str_index tx ty)); [done|]. by destruct Hn.
Qed.

Lemma scan_tiles_keys_NoDup strs nx ny : NoDup (scan_tiles strs nx ny).*1.
Proof. rewrite scan_tiles_fst. apply NoDup_filter, scan_keys_NoDup. Qed.

(** X1: in the container of a call that returned, the per-level lists of
    the [grids] attributes describe the groups that were written: at every
    level, [grid_keys] lists the names of the tile groups in the order of
    their creation, without repetition, [grid_number_objects] lists their
    row counts, all positive, and [grid_array_shapes] has one entry per
    tile group; the level group is named by its position. *)
Theorem grid_attributes_describe_groups S path df fs g c L name tiles :
  written path (write_transcripts S path df fs g) = Some c →
  grids c !! L = Some (name, tiles) →
  name = L
  ∧ grid_keys (grids_attrs c) !! L = Some (tiles.*1)
  ∧ NoDup (tiles.*1)
  ∧ grid_number_objects (grids_attrs c) !! L
    = Some ((λ t, length (location (tg_arrays t.2))) <$> tiles)
  ∧ Forall (λ t, (0 < length (location (tg_arrays t.2)))%nat) tiles
  ∧ (length <$> grid_array_shapes (grids_attrs c) !! L) = Some (length tiles).
Proof.
  intros Hc HL.
  destruct (written_inv S path df fs g c Hc) as (p & Hp & Heq & ->).
  cbn [make_container grids grids_attrs make_grids_attrs grid_keys
         grid_number_objects grid_array_shapes] in *.
  rewrite list_lookup_fmap in HL.
  destruct (out_levels (write_transcripts S path df fs g) !! L) as [lv|] eqn:Hlv;
    [|done].
  injection HL as <- <-.
  assert (lv ∈ out_levels (write_transcripts S path df fs g)) as Hin
    by by eapply list_elem_of_lookup_2.
  assert (∀ t, t ∈ lv_tiles lv →
            length (location (tg_arrays (tile_group (lv_working lv) t).2))
            = length t.2 ∧ t.2 ≠ []) as Hrows.
  { intros [k loc] Ht.
    destruct (tile_loc_in_range S path df fs g lv k loc Hin Ht) as [_ Hr].
    destruct (level_tile_inv S path df fs g lv k loc Hin Ht) as (_ & _ & _ & _ & Hne).
    split; [|done]. cbn [tile_group snd tg_arrays getitem_bundle location].
    by apply getitem_length. }
  rewrite !list_lookup_fmap, Hlv. cbn [fmap option_fmap option_map].
  rewrite <-!list_fmap_compose.
  split.
  { rewrite Heq, <-build_levels_eq in Hlv.
    by apply level_loop_lookup_level in Hlv as [-> _]%lookup_seq. }
  split; [done|]. split.
  { change ((fst ∘ tile_group (lv_working lv)) <$> lv_tiles lv) with ((lv_tiles lv).*1).
    destruct (level_inv_ok S path df fs g lv Hin) as (p' & _ & -> & _).
    apply scan_tiles_keys_NoDup. }
  split.
  { f_equal. apply list_fmap_ext. intros i t Ht%list_elem_of_lookup_2.
    symmetry. by apply Hrows. }
  split.
  { apply Forall_fmap, Forall_forall. intros t Ht.
    destruct (Hrows t Ht) as [Hlen Hne]. unfold compose. rewrite Hlen.
    destruct t.2; [done|simpl; lia]. }
  by rewrite !length_fmap.
Qed.

Lemma grid_attributes_describe_groups_witness :
  ∃ c tiles,
    0%nat = 0%nat
    ∧ grid_keys (grids_attrs c) !! 0%nat = Some (tiles.*1)
    ∧ NoDup (tiles.*1)
    ∧ grid_number_objects (grids_attrs c) !! 0%nat
      = Some ((λ t, length (location (tg_arrays t.2))) <$> tiles)
    ∧ Forall (λ t, (0 < length (location (tg_arrays t.2)))%nat) tiles
    ∧ (length <$> grid_array_shapes (grids_attrs c) !! 0%nat) = Some (length tiles).
Proof.
  eexists _, _.
  eapply (grid_attributes_describe_groups tail_sampler "out.zarr.zip" example_df ∅ ()
            _ 0%nat 0%nat _).
  - vm_compute. reflexivity.
  - reflexivity.
Defined.

(** ** The arrays of a tile group *)

(** X2: in every tile group the eight arrays have the same positive number
    of rows, which is the first component of [chunks] (the second is 1);
    [valid] is all 1, [status] all 0, [quality_score] all 40, the third
    column of [location] all 0, the second column of [codeword_identity]
    all 65535 and its first column is [gene_identity]. *)
Theorem tile_arrays_shape S path df fs g c level tiles k tg :
  written path (write_transcripts S path df fs g) = Some c →
  (level, tiles) ∈ grids c →
  (k, tg) ∈ tiles →
  let b := tg_arrays tg in
  let n := length (location b) in
  (0 < n)%nat
  ∧ bundle_len b n
  ∧ tg_chunks tg = (n, 1%nat)
  ∧ valid b = replicate n 1%Q
  ∧ status b = replicate n 0%Q
  ∧ quality_score b = replicate n 40
  ∧ Forall (λ r, r.2 = 0%Q) (location b)
  ∧ codeword_identity b = (λ code, (code, 65535)) <$> gene_identity b.
Proof.
  intros Hc Hlevel Htile b n.
  destruct (container_tile_inv S path df fs g c level tiles k tg Hc Hlevel Htile)
    as (lv & loc & Hlv & _ & Hloc & Harr & Hchunks).
  destruct (tile_loc_in_range S path df fs g lv k loc Hlv Hloc) as [_ Hr].
  destruct (level_tile_inv S path df fs g lv k loc Hlv Hloc) as (_ & _ & _ & _ & Hne).
  destruct (tile_rows S path df fs g c level tiles k tg Hc Hlevel Htile)
    as (idx & _ & Hidx & Hfull).
  assert (n = length loc) as Hn.
  { unfold n, b. rewrite Harr. cbn [getitem_bundle location]. by apply getitem_length. }
  assert (n = length idx) as Hn'.
  { unfold n, b. rewrite Hfull. cbn [getitem_bundle location].
    apply getitem_length. unfold full_resolution. cbn [location].
    by rewrite length_fmap, convert_rows. }
  split; [rewrite Hn; destruct loc; [done|simpl; lia]|].
  split.
  { unfold b. rewrite Harr, Hn. apply (getitem_bundle_len _ _ _ (level_rows_len S path df fs g lv Hlv) Hr). }
  split; [by rewrite Hchunks, Hn|].
  unfold b in *. rewrite Hfull in *.
  rewrite full_resolution_getitem in * by (by rewrite convert_rows).
  cbn [valid status quality_score location codeword_identity gene_identity] in *.
  rewrite Hn'. repeat split; try done.
  - apply Forall_fmap, Forall_true. done.
  - by rewrite <-list_fmap_compose.
Qed.

Lemma tile_arrays_shape_witness :
  ∃ tg,
  let b := tg_arrays tg in
  let n := length (location b) in
  (0 < n)%nat
  ∧ bundle_len b n
  ∧ tg_chunks tg = (n, 1%nat)
  ∧ valid b = replicate n 1%Q
  ∧ status b = replicate n 0%Q
  ∧ quality_score b = replicate n 40
  ∧ Forall (λ r, r.2 = 0%Q) (location b)
  ∧ codeword_identity b = (λ code, (code, 65535)) <$> gene_identity b.
Proof.
  eexists.
  eapply (tile_arrays_shape tail_sampler "out.zarr.zip" example_df ∅ ()
            _ 0%nat _ "0,0" _).
  - vm_compute. reflexivity.
  - cbn [grids]. apply list_elem_of_here.
  - apply list_elem_of_here.
Defined.

(** ** Rows and tiles of a level *)

Lemma sum_count_le (strs keys : list string) :
  NoDup keys →
  (sum_list_with (λ k, length (np_where strs k)) keys ≤ length strs)%nat.
Proof.
  intros Hnd. induction strs as [|s strs IH].
  - rewrite (sum_list_with_ext _ (λ _, 0%nat)) by done.
    clear Hnd. induction keys as [|k ks IHk]; [done|exact IHk].
  - rewrite (sum_list_with_ext _
      (λ k, (if decide (s = k) then 1 else 0) + length (np_where strs k))%nat)
      by (intros; apply np_where_cons_length).
    rewrite sum_list_with_plus, sum_list_with_indicator by done.
    simpl. case_decide; lia.
Qed.

Lemma filter_fmap_list {A B} (f : A → B) (P : B → Prop) `{∀ x, Decision (P x)}
    (l : list A) :
  filter P (f <$> l) = f <$> filter (P ∘ f) l.
Proof.
  induction l as [|x l IH]; [done|]. rewrite fmap_cons, !filter_cons. simpl.
  destruct (decide (P (f x))); simpl; by rewrite IH.
Qed.

Lemma filter_ext_elem {A} (P Q : A → Prop)
    `{∀ x, Decision (P x)} `{∀ x, Decision (Q x)} (l : list A) :
  (∀ x, x ∈ l → P x ↔ Q x) → filter P l = filter Q l.
Proof.
  induction l as [|x l IH]; [done|]. intros Hext. rewrite !filter_cons.
  rewrite IH by (intros y Hy; apply Hext; by right).
  destruct (decide (P x)) as [HP|HP], (decide (Q x)) as [HQ|HQ]; try done.
  - destruct HQ. by apply (Hext x); [left|].
  - destruct HP. by apply (Hext x); [left|].
Qed.

Lemma np_where_cons (s : string) strs k :
  np_where (s :: strs) k
  = (if decide (s = k) then [0%nat] else []) ++ (Datatypes.S <$> np_where strs k).
Proof.
  unfold np_where. cbn [length seq]. rewrite filter_cons, <-fmap_S_seq.
  rewrite filter_fmap_list. cbn [lookup list_lookup].
  destruct (decide (Some s = Some k)) as [[= ->]|Hne].
  - by rewrite decide_True.
  - by rewrite decide_False by congruence.
Qed.

Lemma getitem_cons_S {A} (x : A) (l : list A) (idx : list nat) :
  getitem (x :: l) (Datatypes.S <$> idx) = getitem l idx.
Proof.
  induction idx as [|i idx IH]; [done|].
  rewrite fmap_cons, !getitem_unfold, IH. done.
Qed.

(** Slicing by the positions of a key keeps exactly the rows with that key,
    in their order. *)
Lemma getitem_np_where {A} (f : A → string) (l : list A) k :
  getitem l (np_where (f <$> l) k) = filter (λ r, f r = k) l.
Proof.
  induction l as [|x l IH]; [done|].
  rewrite fmap_cons, np_where_cons, filter_cons.
  destruct (decide (f x = k)) as [Hk|Hk].
  - cbn [app]. rewrite getitem_unfold. cbn [lookup list_lookup].
    by rewrite getitem_cons_S, IH.
  - cbn [app]. by rewrite getitem_cons_S, IH.
Qed.

Lemma sum_list_fmap_with {A} (f : A → nat) (l : list A) :
  sum_list (f <$> l) = sum_list_with f l.
Proof.
  induction l as [|x l IH]; [done|].
  rewrite fmap_cons. cbn [sum_list_with]. by rewrite IH.
Qed.

(** X3: at every level no working row is in two tiles, and the row counts
    of the tiles add up to at most the number of working rows. *)
Theorem tiles_share_no_row S path df fs g L lv :
  out_levels (write_transcripts S path df fs g) !! L = Some lv →
  (sum_list_with (λ t, length t.2) (lv_tiles lv)
     ≤ length (location (lv_working lv)))%nat
  ∧ (∀ c counts, written path (write_transcripts S path df fs g) = Some c →
       grid_number_objects (grids_attrs c) !! L = Some counts →
       (sum_list counts ≤ length (location (lv_working lv)))%nat)
  ∧ (∀ i j t1 t2 r, lv_tiles lv !! i = Some t1 → lv_tiles lv !! j = Some t2 →
       r ∈ t1.2 → r ∈ t2.2 → i = j).
Proof.
  intros HL.
  assert (lv ∈ out_levels (write_transcripts S path df fs g)) as Hlv
    by by eapply list_elem_of_lookup_2.
  destruct (level_inv_ok S path df fs g lv Hlv) as (p & Hp & Htiles & _).
  assert (sum_list_with (λ t, length t.2) (lv_tiles lv)
            ≤ length (location (lv_working lv)))%nat as Hsum.
  { rewrite Htiles, scan_tiles_sum.
    etrans; [apply sum_count_le, scan_keys_NoDup|].
    unfold tiles_str_indices. by rewrite length_fmap. }
  split; [exact Hsum|]. split.
  - intros c counts (p' & _ & _ & ->)%written_inv.
    cbn [make_container grids_attrs make_grids_attrs grid_number_objects].
    rewrite list_lookup_fmap, HL. intros [= <-].
    by rewrite sum_list_fmap_with.
  - intros i j [k1 loc1] [k2 loc2] r Hi Hj Hr1 Hr2.
    destruct (level_tile_inv S path df fs g lv k1 loc1 Hlv) as (_ & _ & _ & -> & _).
    { by eapply list_elem_of_lookup_2. }
    destruct (level_tile_inv S path df fs g lv k2 loc2 Hlv) as (_ & _ & _ & -> & _).
    { by eapply list_elem_of_lookup_2. }
    cbn in Hr1, Hr2. apply np_where_spec in Hr1, Hr2.
    assert (k1 = k2) as <- by congruence.
    eapply (NoDup_lookup ((lv_tiles lv).*1) i j k1).
    + rewrite Htiles. apply scan_tiles_keys_NoDup.
    + by rewrite list_lookup_fmap, Hi.
    + by rewrite list_lookup_fmap, Hj.
Qed.

Lemma tiles_share_no_row_witness :
  ∃ lv,
  let o := write_transcripts tail_sampler "out.zarr.zip" example_df ∅ () in
  (sum_list_with (λ t, length t.2) (lv_tiles lv)
     ≤ length (location (lv_working lv)))%nat
  ∧ (∀ c counts, written "out.zarr.zip" o = Some c →
       grid_number_objects (grids_attrs c) !! 0%nat = Some counts →
       (sum_list counts ≤ length (location (lv_working lv)))%nat)
  ∧ (∀ i j t1 t2 r, lv_tiles lv !! i = Some t1 → lv_tiles lv !! j = Some t2 →
       r ∈ t1.2 → r ∈ t2.2 → i = j).
Proof.
  eexists.
  eapply (tiles_share_no_row tail_sampler "out.zarr.zip" example_df ∅ () 0%nat _).
  vm_compute. reflexivity.
Defined.

(** X4: a tile group holds every working row of its level whose floor
    indices are the pair of its key, once each and in the order of the
    working set; with X3, a row that no tile holds has a floor index outside
    the enumerated ranges. *)
Theorem tile_holds_every_row_of_its_cell S path df fs g c L lv name tiles tx ty tg :
  written path (write_transcripts S path df fs g) = Some c →
  out_levels (write_transcripts S path df fs g) !! L = Some lv →
  grids c !! L = Some (name, tiles) →
  (str_index tx ty, tg) ∈ tiles →
  location (tg_arrays tg)
  = filter (λ r, Qfloor (r.1.1 / inject_Z (tile_size L)) = tx
                 ∧ Qfloor (r.1.2 / inject_Z (tile_size L)) = ty)
      (location (lv_working lv)).
Proof.
  intros Hc Hlv HL Htg.
  destruct (written_inv S path df fs g c Hc) as (p & Hp & Heq & ->).
  cbn [make_container grids] in HL.
  rewrite list_lookup_fmap, Hlv in HL. injection HL as <- <-.
  assert (lv ∈ out_levels (write_transcripts S path df fs g)) as Hin
    by by eapply list_elem_of_lookup_2.
  assert (lv_level lv = L) as HlvL.
  { rewrite Heq, <-build_levels_eq in Hlv.
    by apply level_loop_lookup_level in Hlv as [-> _]%lookup_seq. }
  apply list_elem_of_fmap in Htg as ([k loc] & Htile & Ht).
  injection Htile as Hk ->. cbn [fst] in Hk.
  destruct (level_tile_inv S path df fs g lv k loc Hin Ht) as (_ & _ & _ & Hloc & _).
  cbn [tile_group snd fst tg_arrays getitem_bundle location].
  rewrite Hloc, HlvL, <-Hk. unfold tiles_str_indices. rewrite getitem_np_where.
  apply filter_ext_elem. intros [[x y] z] Hr. cbn [fst snd].
  destruct (working_nonneg S path df fs g lv x y z Hin Hr) as [Hx Hy].
  rewrite !tile_index_nonneg by (done || apply tile_size_pos).
  split.
  - by intros ?%str_index_inj.
  - by intros [-> ->].
Qed.

Lemma tile_holds_every_row_of_its_cell_witness :
  ∃ lv tg,
  location (tg_arrays tg)
  = filter (λ r, Qfloor (r.1.1 / inject_Z (tile_size 0)) = 0
                 ∧ Qfloor (r.1.2 / inject_Z (tile_size 0)) = 0)
      (location (lv_working lv)).
Proof.
  eexists _, _.
  eapply (tile_holds_every_row_of_its_cell tail_sampler "out.zarr.zip" example_df ∅ ()
            _ 0%nat _ _ _ 0 0 _).
  - vm_compute. reflexivity.
  - vm_compute. reflexivity.
  - reflexivity.
  - apply list_elem_of_here.
Defined.

(** ** Sizes of the levels *)

Lemma level_loop_lookup_size S xmax ymax levels g w n i lv :
  bundle_len w n →
  (level_loop S xmax ymax levels g w).1 !! i = Some lv →
  bundle_len (lv_working lv) (n / 4 ^ i)%nat.
Proof.
  revert g w n i. induction levels as [|level rest IH]; intros g w n i Hw; [done|].
  rewrite level_loop_cons. cbv zeta. case_decide as Ht; simpl.
  - destruct i as [|i]; [|done]. intros [= <-]. cbn [lv_working].
    by rewrite Nat.pow_0_r, Nat.div_1_r.
  - destruct i as [|i].
    + intros [= <-]. cbn [lv_working]. by rewrite Nat.pow_0_r, Nat.div_1_r.
    + cbn [lookup list_lookup]. intros Hi. pose proof Hw as [Hloc _].
      rewrite Hloc in Hi.
      eapply (IH _ _ (n / 4)%nat) in Hi.
      * by rewrite Nat.Div0.div_div, <-Nat.pow_succ_r' in Hi.
      * unfold subsample_indices.
        rewrite <-(choice_length S g n (n / 4)) at 2
          by (apply Nat.Div0.div_le_upper_bound; lia).
        apply getitem_bundle_len with n; [done|]. apply choice_lt.
Qed.

(** Every iteration prints its line: the printed lines are those of the
    iterations, in order. *)
Lemma stdout_lines S path df fs g :
  out_stdout (write_transcripts S path df fs g)
  = level_line <$> out_levels (write_transcripts S path df fs g).
Proof.
  destruct (prepare (convert_gene_column df)) as [p|e] eqn:Hp.
  - rewrite (write_transcripts_Ok S path df fs g p Hp).
    cbn [out_stdout out_levels]. reflexivity.
  - rewrite (write_transcripts_Raise S path df fs g e Hp). reflexivity.
Qed.

(** The history entry at position [L] is the iteration for level [L]. *)
Lemma out_levels_lookup_level S path df fs g L lv :
  out_levels (write_transcripts S path df fs g) !! L = Some lv → lv_level lv = L.
Proof.
  intros HL.
  assert (lv ∈ out_levels (write_transcripts S path df fs g)) as Hin
    by by eapply list_elem_of_lookup_2.
  destruct (levels_inv S path df fs g lv Hin) as (p & Hp & Heq).
  rewrite Heq, <-build_levels_eq in HL.
  by apply level_loop_lookup_level in HL as [-> _]%lookup_seq.
Qed.

Lemma out_levels_lookup_size S path df fs g L lv :
  out_levels (write_transcripts S path df fs g) !! L = Some lv →
  bundle_len (lv_working lv) (length (rows df) / 4 ^ L)%nat.
Proof.
  intros HL.
  assert (lv ∈ out_levels (write_transcripts S path df fs g)) as Hin
    by by eapply list_elem_of_lookup_2.
  destruct (levels_inv S path df fs g lv Hin) as (p & Hp & Heq).
  destruct (prepare_Ok_inv _ _ Hp) as (_ & _ & _ & Hb).
  rewrite Heq, <-build_levels_eq in HL.
  refine (level_loop_lookup_size S (p_xmax p) (p_ymax p) (seq 0 MAX_LEVELS) g
            (p_bundle p) (length (rows df)) L lv _ HL).
  rewrite Hb, <-(convert_rows df). apply full_resolution_len.
Qed.

(** X5: the working set of level [L] has [N // 4^L] rows in each of its
    eight arrays, [N] the number of rows of the table, whatever the random
    draws were, and the line printed for the level reports that number. *)
Theorem level_sizes_are_quarters S path df fs g L lv :
  out_levels (write_transcripts S path df fs g) !! L = Some lv →
  bundle_len (lv_working lv) (length (rows df) / 4 ^ L)%nat
  ∧ out_stdout (write_transcripts S path df fs g) !! L
    = Some ("Level " +:+ pretty L +:+ ": "
              +:+ pretty (length (rows df) / 4 ^ L)%nat +:+ " transcripts").
Proof.
  intros HL.
  pose proof (out_levels_lookup_size S path df fs g L lv HL) as Hlen.
  split; [exact Hlen|].
  rewrite stdout_lines, list_lookup_fmap, HL. cbn [fmap option_fmap option_map].
  unfold level_line. destruct Hlen as [-> _].
  by rewrite (out_levels_lookup_level S path df fs g L lv HL).
Qed.

Lemma level_sizes_are_quarters_witness :
  ∃ lv,
  bundle_len (lv_working lv) (length (rows example_df) / 4 ^ 1)%nat
  ∧ out_stdout (write_transcripts tail_sampler "out.zarr.zip" example_df ∅ ()) !! 1%nat
    = Some ("Level " +:+ pretty 1%nat +:+ ": "
              +:+ pretty (length (rows example_df) / 4 ^ 1)%nat +:+ " transcripts").
Proof.
  eexists.
  eapply (level_sizes_are_quarters tail_sampler "out.zarr.zip" example_df ∅ () 1%nat _).
  vm_compute. reflexivity.
Defined.

(** ** How many levels are written *)

Lemma level_loop_shape S xmax ymax levels g w :
  (length (level_loop S xmax ymax levels g w).1 ≤ length levels)%nat
  ∧ (levels ≠ [] → (level_loop S xmax ymax levels g w).1 ≠ [])
  ∧ (∀ lv, last (level_loop S xmax ymax levels g w).1 = Some lv →
       is_Some (lv_sub_indices lv) →
       length (level_loop S xmax ymax levels g w).1 = length levels).
Proof.
  revert g w. induction levels as [|level rest IH]; intros g w.
  { split; [done|]. split; [done|]. intros lv Hlast. done. }
  rewrite level_loop_cons. cbv zeta. case_decide as Ht.
  - cbn [fst length]. split; [lia|]. split; [done|].
    intros lv [= <-]. cbn [lv_sub_indices]. by intros [? ?].
  - cbn [fst]. set (sg := subsample_indices S g (length (location w))).
    destruct (IH sg.2 (getitem_bundle w sg.1)) as (Hle & Hne & Hlast).
    cbn [length]. split; [lia|]. split; [done|].
    intros lv. destruct (level_loop S xmax ymax rest sg.2 (getitem_bundle w sg.1)).1
      as [|lv' more] eqn:Hmore.
    + intros _ _. destruct rest as [|level' rest]; [done|]. by destruct Hne.
    + change (last (?x :: lv' :: more)) with (last (lv' :: more)).
      intros Hl Hsome. cbn [length] in *. f_equal. by apply (Hlast lv).
Qed.

Lemma fmap_positions {A} (f : A → nat) (l : list A) s :
  (∀ i x, l !! i = Some x → f x = (s + i)%nat) → f <$> l = seq s (length l).
Proof.
  revert s. induction l as [|x l IH]; intros s Hpos; [done|].
  rewrite fmap_cons. cbn [length seq]. f_equal.
  - rewrite (Hpos 0%nat x) by done. lia.
  - apply IH. intros i y Hi. rewrite (Hpos (Datatypes.S i) y) by done. lia.
Qed.

(** X6: the container of a returning call has between 1 and [MAX_LEVELS]
    level groups, named 0, 1, ... in order, and as many entries in each
    per-level attribute list; [number_levels], when the loop recorded it, is
    the number of level groups, and it is missing from the attributes only
    when all [MAX_LEVELS] level groups were written. *)
Theorem number_levels_counts_level_groups S path df fs g c :
  written path (write_transcripts S path df fs g) = Some c →
  (1 ≤ length (grids c) ≤ MAX_LEVELS)%nat
  ∧ (grids c).*1 = seq 0 (length (grids c))
  ∧ length (grid_keys (grids_attrs c)) = length (grids c)
  ∧ length (grid_number_objects (grids_attrs c)) = length (grids c)
  ∧ length (grid_array_shapes (grids_attrs c)) = length (grids c)
  ∧ match number_levels (grids_attrs c) with
    | Some n => n = length (grids c)
    | None => length (grids c) = MAX_LEVELS
    end.
Proof.
  intros Hc.
  destruct (written_inv S path df fs g c Hc) as (p & Hp & Heq & ->).
  pose proof (level_loop_shape S (p_xmax p) (p_ymax p) (seq 0 MAX_LEVELS) g (p_bundle p))
    as Hshape.
  rewrite build_levels_eq, <-Heq, length_seq in Hshape.
  destruct Hshape as (Hle & Hne & Hlast).
  cbn [make_container grids grids_attrs make_grids_attrs grid_keys
         grid_number_objects grid_array_shapes number_levels].
  rewrite !length_fmap.
  pose proof (out_levels_lookup_level S path df fs g) as Hpos.
  clear Hc Heq. revert Hpos Hle Hne Hlast.
  generalize (out_levels (write_transcripts S path df fs g)).
  intros lvs Hpos Hle Hne Hlast.
  assert (lvs ≠ []) as Hlvs.
  { apply Hne. intros Hnil. apply (f_equal length) in Hnil.
    rewrite length_seq in Hnil. unfold MAX_LEVELS in Hnil. discriminate. }
  split. { destruct lvs; [done|]. cbn [length] in *. lia. }
  split.
  { rewrite <-list_fmap_compose. apply (fmap_positions _ _ 0%nat). intros i lv Hi.
    unfold compose, level_group. cbn [fst]. by apply Hpos. }
  do 3 (split; [done|]).
  unfold recorded_number_levels.
  destruct (last lvs) as [lv|] eqn:Hl.
  - destruct (lv_sub_indices lv) as [sub|] eqn:Hsub.
    + apply (Hlast lv); [done|]. rewrite Hsub. eauto.
    + rewrite last_lookup in Hl. apply Hpos in Hl. rewrite Hl.
      destruct lvs; [done|]. cbn [length pred]. lia.
  - by apply last_None in Hl.
Qed.

Lemma number_levels_counts_level_groups_witness :
  ∃ c,
  (1 ≤ length (grids c) ≤ MAX_LEVELS)%nat
  ∧ (grids c).*1 = seq 0 (length (grids c))
  ∧ length (grid_keys (grids_attrs c)) = length (grids c)
  ∧ length (grid_number_objects (grids_attrs c)) = length (grids c)
  ∧ length (grid_array_shapes (grids_attrs c)) = length (grids c)
  ∧ match number_levels (grids_attrs c) with
    | Some n => n = length (grids c)
    | None => length (grids c) = MAX_LEVELS
    end.
Proof.
  eexists.
  eapply (number_levels_counts_level_groups tail_sampler "out.zarr.zip" example_df ∅ ()).
  vm_compute. reflexivity.
Defined.

(** ** The single-tile test and the bounding box *)

Lemma Qdiv_pos_iff (c : Q) (ts : Z) :
  0 < ts → (0 < c / inject_Z ts)%Q ↔ (0 < c)%Q.
Proof.
  intros Hts. rewrite Zlt_Qlt in Hts.
  assert (¬ (inject_Z ts == 0)%Q) as Hnz.
  { intros Hz. rewrite Hz in Hts. by apply Qlt_irrefl in Hts. }
  split.
  - intros Hq. rewrite <-(Qmult_div_r c (inject_Z ts)) by done.
    by apply Qmult_lt_0_compat.
  - intros Hc. apply Qlt_shift_div_l; [done|]. by rewrite Qmult_0_l.
Qed.

Lemma Qdiv_le_1_iff (c : Q) (ts : Z) :
  0 < ts → (c / inject_Z ts <= 1)%Q ↔ (c <= inject_Z ts)%Q.
Proof.
  intros Hts. rewrite Zlt_Qlt in Hts.
  assert (¬ (inject_Z ts == 0)%Q) as Hnz.
  { intros Hz. rewrite Hz in Hts. by apply Qlt_irrefl in Hts. }
  split.
  - intros Hq. rewrite <-(Qmult_div_r c (inject_Z ts)) by done.
    apply Qle_trans with (inject_Z ts * 1)%Q; [by apply Qmult_le_l|].
    rewrite Qmult_1_r. apply Qle_refl.
  - intros Hc. apply Qle_shift_div_r; [done|]. by rewrite Qmult_1_l.
Qed.

Lemma Qceiling_eq_1 (q : Q) : Qceiling q = 1 ↔ (0 < q)%Q ∧ (q <= 1)%Q.
Proof.
  split.
  - intros Hq. split.
    + pose proof (Qceiling_lt q) as Hlt. by rewrite Hq in Hlt.
    + pose proof (Qle_ceiling q) as Hle. by rewrite Hq in Hle.
  - intros [Hpos Hle]. apply Z.le_antisymm.
    + apply Qceiling_resp_le in Hle. exact Hle.
    + assert (0 < Qceiling q); [|lia]. rewrite Zlt_Qlt.
      eapply Qlt_le_trans; [exact Hpos|apply Qle_ceiling].
Qed.

Lemma Qceiling_nonneg (q : Q) : (0 <= q)%Q → 0 ≤ Qceiling q.
Proof.
  intros Hq. rewrite Zle_Qle. eapply Qle_trans; [exact Hq|apply Qle_ceiling].
Qed.

Lemma Qceiling_nonpos (q : Q) : (q <= 0)%Q → Qceiling q ≤ 0.
Proof. intros Hq. apply Qceiling_resp_le in Hq. exact Hq. Qed.

Lemma Qmaxb_cases a b :
  (Qmaxb a b = a ∨ Qmaxb a b = b) ∧ (a <= Qmaxb a b)%Q ∧ (b <= Qmaxb a b)%Q.
Proof.
  unfold Qmaxb. destruct (Qle_bool a b) eqn:Hab.
  - apply Qle_bool_iff in Hab. split; [by right|]. split; [done|apply Qle_refl].
  - split; [by left|]. split; [apply Qle_refl|].
    apply Qlt_le_weak, Qnot_le_lt. intros Hle%Qle_bool_iff. congruence.
Qed.

Lemma foldl_Qmaxb_spec x l :
  foldl Qmaxb x l ∈ x :: l ∧ Forall (λ y, (y <= foldl Qmaxb x l)%Q) (x :: l).
Proof.
  revert x. induction l as [|y l IH]; intros x.
  - cbn [foldl]. split; [by left|]. apply Forall_cons. split; [apply Qle_refl|done].
  - cbn [foldl]. destruct (IH (Qmaxb x y)) as [Hin Hall].
    destruct (Qmaxb_cases x y) as (Hcase & Hx & Hy).
    apply Forall_cons in Hall as [Hm Hall]. split.
    + apply elem_of_cons in Hin as [Hin|Hin]; [|by do 2 right].
      rewrite Hin. destruct Hcase as [->| ->]; [by left|by right; left].
    + repeat (apply Forall_cons; split); try done; by eapply Qle_trans.
Qed.

(** [a.max()] is an entry of [a] that no entry exceeds. *)
Lemma np_max_spec a m :
  np_max a = Ok m → m ∈ a ∧ Forall (λ y, (y <= m)%Q) a.
Proof. destruct a as [|x a]; [done|]. intros [= <-]. apply foldl_Qmaxb_spec. Qed.

(** The bounding box of line 29 is the column-wise maximum. *)
Lemma prepare_Ok_max df p :
  prepare df = Ok p →
  (p_xmax p ∈ px <$> rows df ∧ Forall (λ pt, (px pt <= p_xmax p)%Q) (rows df))
  ∧ (p_ymax p ∈ py <$> rows df ∧ Forall (λ pt, (py pt <= p_ymax p)%Q) (rows df)).
Proof.
  unfold prepare. cbv zeta.
  replace ((λ r : Q * Q * Q, r.1.1) <$> ((λ p, (px p, py p, 0%Q)) <$> rows df))
    with (px <$> rows df) by by rewrite <-list_fmap_compose.
  replace ((λ r : Q * Q * Q, r.1.2) <$> ((λ p, (px p, py p, 0%Q)) <$> rows df))
    with (py <$> rows df) by by rewrite <-list_fmap_compose.
  destruct (np_max (px <$> rows df)) as [xmax|] eqn:Hx; [|done].
  destruct (np_max (py <$> rows df)) as [ymax|] eqn:Hy; [|done].
  destruct (np_min (px <$> rows df)) as [xmin|]; [|done].
  destruct (np_min (py <$> rows df)) as [ymin|]; [|done].
  destruct (negb (Qle_bool 0 xmin)); [done|].
  destruct (negb (Qle_bool 0 ymin)); [done|].
  intros [= <-]. cbn [p_xmax p_ymax].
  apply np_max_spec in Hx as [Hx1 Hx2], Hy as [Hy1 Hy2].
  rewrite Forall_fmap in Hx2, Hy2. done.
Qed.

Lemma n_tiles_nonneg ts c : 0 < ts → (0 <= c)%Q → 0 ≤ n_tiles ts c.
Proof.
  intros Hts Hc. apply Qceiling_nonneg, Qle_shift_div_l.
  - by rewrite Zlt_Qlt in Hts.
  - by rewrite Qmult_0_l.
Qed.

Lemma n_tiles_zero ts c : 0 < ts → (c == 0)%Q → n_tiles ts c = 0.
Proof.
  intros Hts Hc. apply Z.le_antisymm.
  - apply Qceiling_nonpos, Qle_shift_div_r.
    + by rewrite Zlt_Qlt in Hts.
    + rewrite Qmult_0_l, Hc. apply Qle_refl.
  - apply n_tiles_nonneg; [done|]. rewrite Hc. apply Qle_refl.
Qed.

(** The test of line 171 holds exactly when the bounding box has a positive
    extent on both axes and fits into one tile. *)
Lemma terminal_iff xmax ymax L :
  (0 <= xmax)%Q → (0 <= ymax)%Q →
  terminal xmax ymax L ↔
  (0 < xmax)%Q ∧ (xmax <= inject_Z (tile_size L))%Q
  ∧ (0 < ymax)%Q ∧ (ymax <= inject_Z (tile_size L))%Q.
Proof.
  intros Hx Hy. pose proof (tile_size_pos L) as Hts. unfold terminal.
  pose proof (n_tiles_nonneg _ _ Hts Hx) as Hnx.
  pose proof (n_tiles_nonneg _ _ Hts Hy) as Hny.
  assert (n_tiles (tile_size L) xmax * n_tiles (tile_size L) ymax = 1
          ↔ n_tiles (tile_size L) xmax = 1 ∧ n_tiles (tile_size L) ymax = 1) as ->.
  { split; [|by intros [-> ->]]. intros Hm. by apply Z.eq_mul_1_nonneg. }
  unfold n_tiles. rewrite !Qceiling_eq_1, !Qdiv_pos_iff, !Qdiv_le_1_iff by done.
  tauto.
Qed.

Lemma scan_tiles_no_column strs ny : scan_tiles strs 0 ny = [].
Proof. done. Qed.

Lemma scan_tiles_no_row strs nx : scan_tiles strs nx 0 = [].
Proof.
  unfold scan_tiles. generalize (seqZ 0 nx). intros l.
  induction l as [|tx l IH]; [done|]. by rewrite bind_cons, IH.
Qed.

(** X7: the level loop breaks at level [L] (the iteration draws no indices
    for a next level) exactly when the bounding box of the table, the
    column-wise maxima of x and y, has a positive extent on both axes and fits
    into one tile of that level. *)
Theorem loop_breaks_when_box_fits_one_tile S path df fs g L lv :
  out_levels (write_transcripts S path df fs g) !! L = Some lv →
  ∃ xmax ymax,
    (xmax ∈ px <$> rows df ∧ Forall (λ pt, (px pt <= xmax)%Q) (rows df))
    ∧ (ymax ∈ py <$> rows df ∧ Forall (λ pt, (py pt <= ymax)%Q) (rows df))
    ∧ (lv_sub_indices lv = None ↔
         (0 < xmax)%Q ∧ (xmax <= inject_Z (tile_size L))%Q
         ∧ (0 < ymax)%Q ∧ (ymax <= inject_Z (tile_size L))%Q).
Proof.
  intros HL.
  assert (lv ∈ out_levels (write_transcripts S path df fs g)) as Hin
    by by eapply list_elem_of_lookup_2.
  destruct (level_inv_ok S path df fs g lv Hin) as (p & Hp & _ & Hsub).
  rewrite (out_levels_lookup_level S path df fs g L lv HL) in Hsub.
  destruct (prepare_Ok_inv _ _ Hp) as (_ & Hnn & _).
  destruct (prepare_Ok_max _ _ Hp) as [[Hx1 Hx2] [Hy1 Hy2]].
  rewrite convert_rows in Hnn, Hx1, Hx2, Hy1, Hy2.
  exists (p_xmax p), (p_ymax p). do 2 (split; [done|]).
  rewrite <-terminal_iff.
  - destruct (lv_sub_indices lv) as [sub|]; [|done].
    destruct Hsub as [Hnt _]. split; [done|]. by intros Ht.
  - apply list_elem_of_fmap in Hx1 as (pt & -> & Hpt).
    rewrite Forall_forall in Hnn. by destruct (Hnn pt Hpt).
  - apply list_elem_of_fmap in Hy1 as (pt & -> & Hpt).
    rewrite Forall_forall in Hnn. by destruct (Hnn pt Hpt).
Qed.

Lemma loop_breaks_when_box_fits_one_tile_witness :
  ∃ lv xmax ymax,
    (xmax ∈ px <$> rows example_df
     ∧ Forall (λ pt, (px pt <= xmax)%Q) (rows example_df))
    ∧ (ymax ∈ py <$> rows example_df
       ∧ Forall (λ pt, (py pt <= ymax)%Q) (rows example_df))
    ∧ (lv_sub_indices lv = None ↔
         (0 < xmax)%Q ∧ (xmax <= inject_Z (tile_size 1))%Q
         ∧ (0 < ymax)%Q ∧ (ymax <= inject_Z (tile_size 1))%Q).
Proof.
  eexists.
  eapply (loop_breaks_when_box_fits_one_tile tail_sampler "out.zarr.zip" example_df
            ∅ () 1%nat _).
  vm_compute. reflexivity.
Defined.

(** ** A bounding box without extent *)

(** X8: for a table that passes validation and whose x values are all 0 (or
    whose y values are all 0), the call returns and writes all [MAX_LEVELS]
    level groups, none of them with a tile group; it prints [MAX_LEVELS]
    lines, and the attributes carry no [number_levels]. *)
Theorem flat_table_writes_no_tile S path df fs g :
  rows df ≠ [] →
  Forall nonneg (rows df) →
  Forall (λ pt, (px pt == 0)%Q) (rows df) ∨ Forall (λ pt, (py pt == 0)%Q) (rows df) →
  ∃ c, written path (write_transcripts S path df fs g) = Some c
    ∧ length (grids c) = MAX_LEVELS
    ∧ Forall (λ grp, grp.2 = []) (grids c)
    ∧ Forall (λ keys, keys = []) (grid_keys (grids_attrs c))
    ∧ number_levels (grids_attrs c) = None
    ∧ length (out_stdout (write_transcripts S path df fs g)) = MAX_LEVELS.
Proof.
  intros Hne Hnn Hflat.
  destruct (prepare_cons (convert_gene_column df)) as [[_ (xmax & ymax & Hp)]|[Hbad _]];
    [by rewrite convert_rows| |by rewrite convert_rows in Hbad].
  set (p := {| p_xmax := xmax; p_ymax := ymax;
               p_gene_names := df_categories (convert_gene_column df);
               p_bundle := full_resolution (convert_gene_column df) |}) in Hp.
  destruct (prepare_Ok_max _ _ Hp) as [[Hx1 _] [Hy1 _]].
  rewrite convert_rows in Hx1, Hy1. cbn [p p_xmax p_ymax] in Hx1, Hy1.
  assert (∀ l, ¬ terminal xmax ymax l) as Hnt.
  { intros l. unfold terminal. destruct Hflat as [Hflat|Hflat].
    - apply list_elem_of_fmap in Hx1 as (pt & -> & Hpt).
      rewrite Forall_forall in Hflat.
      rewrite (n_tiles_zero _ (px pt)) by (apply tile_size_pos || by apply Hflat). lia.
    - apply list_elem_of_fmap in Hy1 as (pt & -> & Hpt).
      rewrite Forall_forall in Hflat.
      rewrite (n_tiles_zero _ (py pt)) by (apply tile_size_pos || by apply Hflat). lia. }
  assert (∀ l strs, scan_tiles strs (n_tiles (tile_size l) xmax)
                      (n_tiles (tile_size l) ymax) = []) as Hscan.
  { intros l strs. destruct Hflat as [Hflat|Hflat].
    - apply list_elem_of_fmap in Hx1 as (pt & -> & Hpt).
      rewrite Forall_forall in Hflat.
      rewrite (n_tiles_zero _ (px pt)) by (apply tile_size_pos || by apply Hflat).
      apply scan_tiles_no_column.
    - apply list_elem_of_fmap in Hy1 as (pt & -> & Hpt).
      rewrite Forall_forall in Hflat.
      rewrite (n_tiles_zero _ (py pt)) by (apply tile_size_pos || by apply Hflat).
      apply scan_tiles_no_row. }
  destruct (level_loop_exhaust S xmax ymax (seq 0 MAX_LEVELS) g
              (full_resolution (convert_gene_column df))) as [Hlen Hsub].
  { intros l _. apply Hnt. }
  change (level_loop S xmax ymax (seq 0 MAX_LEVELS) g
            (full_resolution (convert_gene_column df)))
    with (level_loop S (p_xmax p) (p_ymax p) (seq 0 MAX_LEVELS) g (p_bundle p))
    in Hlen, Hsub.
  rewrite build_levels_eq in Hlen, Hsub. rewrite length_seq in Hlen.
  assert (∀ lv, lv ∈ (build_levels S p g).1 → lv_tiles lv = []) as Htiles.
  { intros lv Hlv. rewrite <-build_levels_eq in Hlv.
    apply level_loop_level_ok in Hlv as [-> _]. apply Hscan. }
  exists (make_container p (build_levels S p g).1).
  rewrite stdout_lines.
  unfold written. rewrite (write_transcripts_Ok S path df fs g p Hp).
  cbn [out_result out_fs out_levels]. rewrite lookup_insert_eq.
  split; [reflexivity|].
  cbn [make_container grids grids_attrs make_grids_attrs grid_keys number_levels].
  rewrite !length_fmap.
  revert Hlen Hsub Htiles. generalize ((build_levels S p g).1). intros lvs Hlen Hsub Htiles.
  split; [done|]. split.
  { apply Forall_fmap, Forall_forall. intros lv Hlv. unfold compose, level_group.
    cbn [snd]. by rewrite (Htiles lv Hlv). }
  split.
  { apply Forall_fmap, Forall_forall. intros lv Hlv. unfold compose.
    by rewrite (Htiles lv Hlv). }
  split; [|done].
  unfold recorded_number_levels. destruct (last lvs) as [lv|] eqn:Hlast.
  - destruct (lv_sub_indices lv) eqn:Hs; [done|].
    destruct (Hsub lv); [|done]. apply last_Some in Hlast as [l' ->].
    apply elem_of_app. right. by left.
  - apply last_None in Hlast. rewrite Hlast in Hlen. done.
Qed.

Lemma flat_table_writes_no_tile_witness :
  let df := {| rows := [pt 0 10 "A"; pt 0 700 "B"]; gene_dtype := ObjectDtype |} in
  ∃ c, written "out.zarr.zip" (write_transcripts tail_sampler "out.zarr.zip" df ∅ ())
       = Some c
    ∧ length (grids c) = MAX_LEVELS
    ∧ Forall (λ grp, grp.2 = []) (grids c)
    ∧ Forall (λ keys, keys = []) (grid_keys (grids_attrs c))
    ∧ number_levels (grids_attrs c) = None
    ∧ length (out_stdout (write_transcripts tail_sampler "out.zarr.zip" df ∅ ()))
      = MAX_LEVELS.
Proof.
  apply (flat_table_writes_no_tile tail_sampler "out.zarr.zip"
           {| rows := [pt 0 10 "A"; pt 0 700 "B"]; gene_dtype := ObjectDtype |} ∅ ()).
  - discriminate.
  - repeat constructor; by vm_compute.
  - left. repeat constructor.
Defined.

(** ** The file system and the outcome *)



(** ** The order of the tile keys *)

Lemma StronglySorted_seqZ m n : StronglySorted Z.lt (seqZ m n).
Proof.
  remember (Z.to_nat n) as k eqn:Hk. revert m n Hk.
  induction k as [|k IH]; intros m n Hk.
  - rewrite seqZ_nil by lia. constructor.
  - rewrite seqZ_cons by lia. constructor.
    + apply IH. lia.
    + apply Forall_seqZ. lia.
Qed.

Lemma StronglySorted_filter {A} (R : relation A) (P : A → Prop)
    `{∀ x, Decision (P x)} (l : list A) :
  StronglySorted R l → StronglySorted R (filter P l).
Proof.
  induction 1 as [|x l Hl IH Hx]; [constructor|].
  rewrite filter_cons. destruct (decide (P x)); [|done].
  constructor; [done|]. apply Forall_forall. intros y [_ Hy]%list_elem_of_filter.
  rewrite Forall_forall in Hx. by apply Hx.
Qed.

Lemma visited_pairs_sorted (lx ly : list Z) :
  StronglySorted Z.lt lx → StronglySorted Z.lt ly →
  StronglySorted visited_before (tx ← lx; ty ← ly; [(tx, ty)]).
Proof.
  intros Hx Hy. induction Hx as [|x lx Hlx IH Hall]; [constructor|].
  rewrite bind_cons. apply StronglySorted_app_2; [| |exact IH].
  - intros [a1 b1] [a2 b2] (ty & ->%list_elem_of_singleton & _)%list_elem_of_bind
      (tx & (ty' & ->%list_elem_of_singleton & _)%list_elem_of_bind & Htx)%list_elem_of_bind.
    left. cbn [fst]. rewrite Forall_forall in Hall. by apply Hall.
  - clear -Hy. induction Hy as [|y ly Hly IHy Hall]; [constructor|].
    rewrite bind_cons. cbn [app]. constructor; [exact IHy|].
    apply Forall_forall.
    intros [a b] (ty & [= -> ->]%list_elem_of_singleton & Hty)%list_elem_of_bind.
    right. cbn [fst snd]. split; [done|].
    rewrite Forall_forall in Hall. by apply Hall.
Qed.

Lemma visited_pairs_keys (lx ly : list Z) :
  (tx ← lx; ty ← ly; [str_index tx ty])
  = (λ p, str_index p.1 p.2) <$> (tx ← lx; ty ← ly; [(tx, ty)]).
Proof.
  induction lx as [|x lx IH]; [done|].
  rewrite !bind_cons, fmap_app, IH. f_equal.
  clear. induction ly as [|y ly IHy]; [done|].
  by rewrite !bind_cons, fmap_app, IHy.
Qed.

(** X11: at every level the tile keys are listed in the order the loops
    visit the tiles: [grid_keys] of a level is the list of [f"{tx},{ty}"]
    for pairs of non-negative tile indices in strictly ascending order of
    [tx], then of [ty]. *)
Theorem tile_keys_in_visiting_order S path df fs g c L keys :
  written path (write_transcripts S path df fs g) = Some c →
  grid_keys (grids_attrs c) !! L = Some keys →
  ∃ ps : list (Z * Z),
    keys = (λ p, str_index p.1 p.2) <$> ps
    ∧ StronglySorted visited_before ps
    ∧ Forall (λ p, 0 ≤ p.1 ∧ 0 ≤ p.2) ps.
Proof.
  intros Hc HL.
  destruct (written_inv S path df fs g c Hc) as (p & Hp & Heq & ->).
  cbn [make_container grids_attrs make_grids_attrs grid_keys] in HL.
  rewrite list_lookup_fmap in HL.
  destruct (out_levels (write_transcripts S path df fs g) !! L) as [lv|] eqn:Hlv;
    [|done].
  injection HL as <-.
  assert (lv ∈ out_levels (write_transcripts S path df fs g)) as Hin
    by by eapply list_elem_of_lookup_2.
  destruct (level_inv_ok S path df fs g lv Hin) as (p' & _ & -> & _).
  rewrite scan_tiles_fst, visited_pairs_keys, filter_fmap_list.
  eexists. split; [reflexivity|]. split.
  - apply StronglySorted_filter, visited_pairs_sorted; apply StronglySorted_seqZ.
  - apply Forall_forall.
    intros [a b] [_ (tx & (ty & [= -> ->]%list_elem_of_singleton & Hty)%list_elem_of_bind
                        & Htx)%list_elem_of_bind]%list_elem_of_filter.
    apply elem_of_seqZ in Htx, Hty. cbn [fst snd]. lia.
Qed.

Lemma tile_keys_in_visiting_order_witness :
  ∃ ps : list (Z * Z),
    ["0,0"; "1,0"; "1,1"] = (λ p, str_index p.1 p.2) <$> ps
    ∧ StronglySorted visited_before ps
    ∧ Forall (λ p, 0 ≤ p.1 ∧ 0 ≤ p.2) ps.
Proof.
  eapply (tile_keys_in_visiting_order tail_sampler "out.zarr.zip" example_df ∅ ()
            _ 0%nat).
  - vm_compute. reflexivity.
  - vm_compute. reflexivity.
Defined.

(** ** Calling again *)

(** X12: the change a call makes to the caller's table (the gene column
    becomes categorical) does not change what a later call does: called on
    the table a first call left behind, from the same file system and the
    same generator state, the writer has the same outcome as on the original
    table, and it leaves the table as it found it. *)
Theorem second_call_same_outcome S path df fs fs' g g' :
  write_transcripts S path (out_df (write_transcripts S path df fs g)) fs' g'
  = write_transcripts S path df fs' g'
  ∧ out_df (write_transcripts S path
              (out_df (write_transcripts S path df fs g)) fs' g')
    = out_df (write_transcripts S path df fs g).
Proof.
  assert (∀ fs0 g0, out_df (write_transcripts S path df fs0 g0)
                    = convert_gene_column df) as Hdf.
  { intros fs0 g0. destruct (prepare (convert_gene_column df)) as [p|e] eqn:Hp.
    - by rewrite (write_transcripts_Ok S path df fs0 g0 p Hp).
    - by rewrite (write_transcripts_Raise S path df fs0 g0 e Hp). }
  assert (convert_gene_column (convert_gene_column df) = convert_gene_column df)
    as Hidem by done.
  assert (write_transcripts S path (convert_gene_column df) fs' g'
          = write_transcripts S path df fs' g') as Hsame.
  { unfold write_transcripts. by rewrite Hidem. }
  rewrite (Hdf fs g). split; [exact Hsame|]. by rewrite Hsame, (Hdf fs' g').
Qed.

(** ** When [number_levels] is recorded *)

Lemma tile_size_mono l1 l2 : (l1 ≤ l2)%nat → tile_size l1 ≤ tile_size l2.
Proof.
  intros Hl. unfold tile_size, GRID_SIZE.
  apply Z.mul_le_mono_nonneg_l; [lia|]. apply Z.pow_le_mono_r; lia.
Qed.

(** X13: [number_levels] is part of the attributes of the container exactly
    when the bounding box of the table has a positive extent on both axes
    and fits into one tile of the last level, of side [250 * 2^14]; for a
    larger box, or one without extent, the attribute is missing. *)
Theorem number_levels_recorded_iff S path df fs g c :
  written path (write_transcripts S path df fs g) = Some c →
  ∃ xmax ymax,
    (xmax ∈ px <$> rows df ∧ Forall (λ pt, (px pt <= xmax)%Q) (rows df))
    ∧ (ymax ∈ py <$> rows df ∧ Forall (λ pt, (py pt <= ymax)%Q) (rows df))
    ∧ (is_Some (number_levels (grids_attrs c)) ↔
         (0 < xmax)%Q ∧ (xmax <= inject_Z (tile_size (MAX_LEVELS - 1)))%Q
         ∧ (0 < ymax)%Q ∧ (ymax <= inject_Z (tile_size (MAX_LEVELS - 1)))%Q).
Proof.
  intros Hc.
  destruct (written_inv S path df fs g c Hc) as (p & Hp & Heq & ->).
  destruct (prepare_Ok_inv _ _ Hp) as (_ & Hnn & _).
  destruct (prepare_Ok_max _ _ Hp) as [[Hx1 Hx2] [Hy1 Hy2]].
  rewrite convert_rows in Hnn, Hx1, Hx2, Hy1, Hy2.
  exists (p_xmax p), (p_ymax p). do 2 (split; [done|]).
  assert (0 <= p_xmax p)%Q as Hx0.
  { apply list_elem_of_fmap in Hx1 as (pt & -> & Hpt).
    rewrite Forall_forall in Hnn. by destruct (Hnn pt Hpt). }
  assert (0 <= p_ymax p)%Q as Hy0.
  { apply list_elem_of_fmap in Hy1 as (pt & -> & Hpt).
    rewrite Forall_forall in Hnn. by destruct (Hnn pt Hpt). }
  rewrite <-(terminal_iff _ _ _ Hx0 Hy0).
  pose proof (level_loop_shape S (p_xmax p) (p_ymax p) (seq 0 MAX_LEVELS) g (p_bundle p))
    as Hshape.
  rewrite build_levels_eq, <-Heq, length_seq in Hshape.
  destruct Hshape as (Hle & Hne & Hlast).
  pose proof (out_levels_lookup_level S path df fs g) as Hpos.
  assert (∀ lv, lv ∈ out_levels (write_transcripts S path df fs g) →
            match lv_sub_indices lv with
            | None => terminal (p_xmax p) (p_ymax p) (lv_level lv)
            | Some _ => ¬ terminal (p_xmax p) (p_ymax p) (lv_level lv)
            end) as Hok.
  { intros lv Hlv. destruct (level_inv_ok S path df fs g lv Hlv) as (p' & Hp' & _ & Hsub).
    assert (p' = p) as -> by congruence.
    destruct (lv_sub_indices lv); [by destruct Hsub|done]. }
  cbn [make_container grids_attrs make_grids_attrs number_levels].
  clear Hc Heq. revert Hle Hne Hlast Hpos Hok.
  generalize (out_levels (write_transcripts S path df fs g)).
  intros lvs Hle Hne Hlast Hpos Hok.
  assert (lvs ≠ []) as Hlvs.
  { apply Hne. intros Hnil. apply (f_equal length) in Hnil.
    rewrite length_seq in Hnil. unfold MAX_LEVELS in Hnil. discriminate. }
  unfold recorded_number_levels.
  destruct (last lvs) as [lv|] eqn:Hl; [|by apply last_None in Hl].
  assert (lv ∈ lvs) as Hin.
  { apply last_Some in Hl as [l' ->]. apply elem_of_app. right. by left. }
  assert (lv_level lv = pred (length lvs)) as Hlevel.
  { rewrite last_lookup in Hl. by apply Hpos in Hl. }
  specialize (Hok lv Hin). specialize (Hlast lv eq_refl).
  destruct (lv_sub_indices lv) as [sub|].
  - split; [by intros [? ?]|]. intros Ht. destruct Hok.
    rewrite Hlevel, Hlast by eauto. exact Ht.
  - split; [|eauto]. intros _.
    assert (lv_level lv ≤ MAX_LEVELS - 1)%nat as Hbound by lia.
    apply terminal_iff in Hok as (? & Hxe & ? & Hye); [|done..].
    apply terminal_iff; [done..|].
    apply tile_size_mono in Hbound. rewrite Zle_Qle in Hbound.
    repeat split; try done; by eapply Qle_trans.
Qed.

Lemma number_levels_recorded_iff_witness :
  ∃ c xmax ymax,
    (xmax ∈ px <$> rows example_df
     ∧ Forall (λ pt, (px pt <= xmax)%Q) (rows example_df))
    ∧ (ymax ∈ py <$> rows example_df
       ∧ Forall (λ pt, (py pt <= ymax)%Q) (rows example_df))
    ∧ (is_Some (number_levels (grids_attrs c)) ↔
         (0 < xmax)%Q ∧ (xmax <= inject_Z (tile_size (MAX_LEVELS - 1)))%Q
         ∧ (0 < ymax)%Q ∧ (ymax <= inject_Z (tile_size (MAX_LEVELS - 1)))%Q).
Proof.
  eexists.
  eapply (number_levels_recorded_iff tail_sampler "out.zarr.zip" example_df ∅ ()).
  vm_compute. reflexivity.
Defined.

(** ** Rows on the upper edge of the bounding box *)

Lemma Qdiv_le_mono (x y : Q) (ts : Z) :
  0 < ts → (x <= y)%Q → (x / inject_Z ts <= y / inject_Z ts)%Q.
Proof.
  intros Hts Hxy. rewrite Zlt_Qlt in Hts. apply Qle_shift_div_l; [done|].
  assert (¬ (inject_Z ts == 0)%Q) as Hnz.
  { intros Hz. rewrite Hz in Hts. by apply Qlt_irrefl in Hts. }
  rewrite Qmult_comm, Qmult_div_r by done. exact Hxy.
Qed.

Lemma Qfloor_nonneg (q : Q) : (0 <= q)%Q → 0 ≤ Qfloor q.
Proof. intros Hq. apply Qfloor_resp_le in Hq. exact Hq. Qed.

Lemma Qdiv_nonneg (c : Q) (ts : Z) : 0 < ts → (0 <= c)%Q → (0 <= c / inject_Z ts)%Q.
Proof.
  intros Hts Hc. apply Qle_shift_div_l; [by rewrite Zlt_Qlt in Hts|].
  by rewrite Qmult_0_l.
Qed.

(** A coordinate whose floor index reaches the number of tiles lies on the
    upper edge of the bounding box, and the edge is a multiple of the tile
    size. *)
Lemma upper_edge (x cmax : Q) (ts : Z) :
  0 < ts → (x <= cmax)%Q →
  Qceiling (cmax / inject_Z ts) ≤ Qfloor (x / inject_Z ts) →
  (x == cmax)%Q ∧ ∃ n, (cmax == inject_Z (n * ts))%Q.
Proof.
  intros Hts Hle Hidx.
  assert (¬ (inject_Z ts == 0)%Q) as Hnz.
  { intros Hz. rewrite Zlt_Qlt, Hz in Hts. by apply Qlt_irrefl in Hts. }
  pose proof (Qdiv_le_mono x cmax ts Hts Hle) as Hdiv.
  pose proof (Qfloor_le (x / inject_Z ts)) as Hfl.
  pose proof (Qle_ceiling (cmax / inject_Z ts)) as Hce.
  rewrite Zle_Qle in Hidx.
  assert (cmax / inject_Z ts == inject_Z (Qceiling (cmax / inject_Z ts)))%Q as Hb.
  { apply Qle_antisym; [done|].
    eapply Qle_trans; [exact Hidx|]. by eapply Qle_trans. }
  assert (x / inject_Z ts == cmax / inject_Z ts)%Q as Ha.
  { apply Qle_antisym; [done|].
    eapply Qle_trans; [exact Hce|]. by eapply Qle_trans. }
  split.
  - rewrite <-(Qmult_div_r x (inject_Z ts)), <-(Qmult_div_r cmax (inject_Z ts)) by done.
    by rewrite Ha.
  - exists (Qceiling (cmax / inject_Z ts)).
    rewrite inject_Z_mult, <-Hb, Qmult_comm, Qmult_div_r by done. reflexivity.
Qed.

(** Every working row of a level is a row of the table. *)
Lemma working_row_of_table S path df fs g lv r :
  lv ∈ out_levels (write_transcripts S path df fs g) →
  r ∈ location (lv_working lv) →
  ∃ pt, pt ∈ rows df ∧ r = (px pt, py pt, 0%Q) ∧ nonneg pt.
Proof.
  intros (Hnn & origin & _ & _ & ->)%level_rows. cbn [getitem_bundle location].
  intros Hin%getitem_elem_of. cbn [full_resolution location] in Hin.
  apply list_elem_of_fmap in Hin as (pt' & -> & Hpt).
  rewrite convert_rows in Hpt. exists pt'. split; [done|]. split; [done|].
  by apply (proj1 (Forall_forall _ _) Hnn).
Qed.

(** X14: at every level, a working row that is in no tile lies on the upper
    edge of the bounding box: its x is the maximum x of the table and that
    maximum is an integer multiple of the tile size of the level, or the same
    holds for y; every other working row is in a tile of the level. *)
Theorem only_upper_edge_rows_are_dropped S path df fs g L lv :
  out_levels (write_transcripts S path df fs g) !! L = Some lv →
  ∃ xmax ymax,
    (xmax ∈ px <$> rows df ∧ Forall (λ pt, (px pt <= xmax)%Q) (rows df))
    ∧ (ymax ∈ py <$> rows df ∧ Forall (λ pt, (py pt <= ymax)%Q) (rows df))
    ∧ ∀ j r, location (lv_working lv) !! j = Some r →
        (∃ k loc, (k, loc) ∈ lv_tiles lv ∧ j ∈ loc)
        ∨ ((r.1.1 == xmax)%Q ∧ ∃ n, (xmax == inject_Z (n * tile_size L))%Q)
        ∨ ((r.1.2 == ymax)%Q ∧ ∃ n, (ymax == inject_Z (n * tile_size L))%Q).
Proof.
  intros HL.
  assert (lv ∈ out_levels (write_transcripts S path df fs g)) as Hin
    by by eapply list_elem_of_lookup_2.
  destruct (level_inv_ok S path df fs g lv Hin) as (p & Hp & Htiles & _).
  rewrite (out_levels_lookup_level S path df fs g L lv HL) in Htiles.
  destruct (prepare_Ok_max _ _ Hp) as [[Hx1 Hx2] [Hy1 Hy2]].
  rewrite convert_rows in Hx1, Hx2, Hy1, Hy2.
  exists (p_xmax p), (p_ymax p). do 2 (split; [done|]).
  intros j r Hj. pose proof (tile_size_pos L) as Hts.
  destruct (working_row_of_table S path df fs g lv r Hin) as (pt & Hpt & -> & Hx0 & Hy0).
  { by eapply list_elem_of_lookup_2. }
  cbn [fst snd].
  rewrite Forall_forall in Hx2, Hy2. specialize (Hx2 pt Hpt). specialize (Hy2 pt Hpt).
  destruct (decide (Qfloor (px pt / inject_Z (tile_size L))
                      < n_tiles (tile_size L) (p_xmax p))) as [Htx|Htx];
    [destruct (decide (Qfloor (py pt / inject_Z (tile_size L))
                         < n_tiles (tile_size L) (p_ymax p))) as [Hty|Hty]|].
  - left.
    assert (tiles_str_indices (tile_size L) (location (lv_working lv)) !! j
            = Some (str_index (Qfloor (px pt / inject_Z (tile_size L)))
                              (Qfloor (py pt / inject_Z (tile_size L))))) as Hkey.
    { unfold tiles_str_indices. rewrite list_lookup_fmap, Hj. cbn [fmap option_fmap option_map fst snd].
      by rewrite !tile_index_nonneg. }
    apply np_where_spec in Hkey.
    eexists _, _. split; [|exact Hkey]. rewrite Htiles. apply scan_tiles_spec.
    eexists _, _. split; [|split; [|split; [reflexivity|split; [reflexivity|]]]].
    + split; [|exact Htx]. by apply Qfloor_nonneg, Qdiv_nonneg.
    + split; [|exact Hty]. by apply Qfloor_nonneg, Qdiv_nonneg.
    + intros Hnil. rewrite Hnil in Hkey. by apply elem_of_nil in Hkey.
  - right. right. apply upper_edge; [done..|]. unfold n_tiles in Hty. lia.
  - right. left. apply upper_edge; [done..|]. unfold n_tiles in Htx. lia.
Qed.

Lemma only_upper_edge_rows_are_dropped_witness :
  ∃ lv xmax ymax,
    (xmax ∈ px <$> rows boundary_df
     ∧ Forall (λ pt, (px pt <= xmax)%Q) (rows boundary_df))
    ∧ (ymax ∈ py <$> rows boundary_df
       ∧ Forall (λ pt, (py pt <= ymax)%Q) (rows boundary_df))
    ∧ ∀ j r, location (lv_working lv) !! j = Some r →
        (∃ k loc, (k, loc) ∈ lv_tiles lv ∧ j ∈ loc)
        ∨ ((r.1.1 == xmax)%Q ∧ ∃ n, (xmax == inject_Z (n * tile_size 0))%Q)
        ∨ ((r.1.2 == ymax)%Q ∧ ∃ n, (ymax == inject_Z (n * tile_size 0))%Q).
Proof.
  eexists.
  eapply (only_upper_edge_rows_are_dropped tail_sampler "out.zarr.zip" boundary_df
            ∅ () 0%nat _).
  vm_compute. reflexivity.
Defined.

(** ** A table within one tile *)

Lemma Qfloor_zero (q : Q) : (0 <= q)%Q → (q < 1)%Q → Qfloor q = 0.
Proof.
  intros H0 H1. apply Z.le_antisymm; [|by apply Qfloor_nonneg].
  assert (Qfloor q < 1); [|lia]. rewrite Zlt_Qlt.
  eapply Qle_lt_trans; [apply Qfloor_le|exact H1].
Qed.

Lemma tile_index_zero ts c :
  0 < ts → (0 <= c)%Q → (c < inject_Z ts)%Q → tile_index ts c = 0.
Proof.
  intros Hts H0 H1. rewrite tile_index_nonneg by done. apply Qfloor_zero.
  - by apply Qdiv_nonneg.
  - apply Qlt_shift_div_r; [by rewrite Zlt_Qlt in Hts|]. by rewrite Qmult_1_l.
Qed.

Lemma n_tiles_one ts c :
  0 < ts → (0 < c)%Q → (c <= inject_Z ts)%Q → n_tiles ts c = 1.
Proof.
  intros Hts H0 H1. unfold n_tiles.
  apply Qceiling_eq_1. by rewrite Qdiv_pos_iff, Qdiv_le_1_iff.
Qed.

Lemma np_where_all (strs : list string) k :
  Forall (λ s, s = k) strs → np_where strs k = seq 0 (length strs).
Proof.
  induction 1 as [|s strs -> _ IH]; [done|].
  rewrite np_where_cons, decide_True, IH, fmap_S_seq by done. done.
Qed.

Lemma scan_tiles_one strs :
  np_where strs (str_index 0 0) ≠ [] →
  scan_tiles strs 1 1 = [(str_index 0 0, np_where strs (str_index 0 0))].
Proof.
  intros Hne. unfold scan_tiles. change (seqZ 0 1) with [0].
  rewrite !bind_cons. cbn [mbind list_bind]. rewrite !app_nil_r. cbv zeta.
  rewrite decide_False; [done|]. by intros ?%nil_length_inv.
Qed.

Lemma level_loop_first S xmax ymax level rest g w :
  terminal xmax ymax level →
  level_loop S xmax ymax (level :: rest) g w
  = ([{| lv_level := level; lv_working := w;
         lv_tiles := scan_tiles (tiles_str_indices (tile_size level) (location w))
                       (n_tiles (tile_size level) xmax)
                       (n_tiles (tile_size level) ymax);
         lv_sub_indices := None |}], g).
Proof. intros Ht. rewrite level_loop_cons. cbv zeta. by rewrite decide_True. Qed.

(** X15: a table whose points all lie in [0, 250) x [0, 250), not all with
    x = 0 and not all with y = 0, is written as a single level with the
    single tile ["0,0"], which holds the eight full-resolution arrays, all
    rows in the order of the table; [number_levels] is 1 and no random
    number is drawn. *)
Theorem table_within_first_tile S path df fs g :
  Forall (λ pt, (0 <= px pt)%Q ∧ (px pt < inject_Z GRID_SIZE)%Q
                ∧ (0 <= py pt)%Q ∧ (py pt < inject_Z GRID_SIZE)%Q) (rows df) →
  Exists (λ pt, (0 < px pt)%Q) (rows df) →
  Exists (λ pt, (0 < py pt)%Q) (rows df) →
  ∃ c, written path (write_transcripts S path df fs g) = Some c
    ∧ grids c
      = [(0%nat, [("0,0", {| tg_arrays := full_resolution (convert_gene_column df);
                             tg_chunks := (length (rows df), 1%nat) |})])]
    ∧ grid_keys (grids_attrs c) = [["0,0"]]
    ∧ grid_number_objects (grids_attrs c) = [[length (rows df)]]
    ∧ number_levels (grids_attrs c) = Some 1%nat
    ∧ out_rng (write_transcripts S path df fs g) = g.
Proof.
  intros Hbox Hex Hey.
  assert (rows df ≠ []) as Hne.
  { intros Hnil. rewrite Hnil in Hex. by apply Exists_nil in Hex. }
  assert (Forall nonneg (rows df)) as Hnn.
  { eapply Forall_impl; [exact Hbox|]. intros pt (? & _ & ? & _). by split. }
  destruct (prepare_cons (convert_gene_column df)) as [[_ (xmax & ymax & Hp)]|[Hbad _]];
    [by rewrite convert_rows| |by rewrite convert_rows in Hbad].
  set (p := {| p_xmax := xmax; p_ymax := ymax;
               p_gene_names := df_categories (convert_gene_column df);
               p_bundle := full_resolution (convert_gene_column df) |}) in Hp.
  destruct (prepare_Ok_max _ _ Hp) as [[Hx1 Hx2] [Hy1 Hy2]].
  rewrite convert_rows in Hx1, Hx2, Hy1, Hy2. cbn [p p_xmax p_ymax] in Hx1, Hx2, Hy1, Hy2.
  rewrite Forall_forall in Hbox, Hx2, Hy2.
  assert (0 < xmax)%Q as Hxpos.
  { apply Exists_exists in Hex as (pt & Hpt & Hpos).
    eapply Qlt_le_trans; [exact Hpos|by apply Hx2]. }
  assert (0 < ymax)%Q as Hypos.
  { apply Exists_exists in Hey as (pt & Hpt & Hpos).
    eapply Qlt_le_trans; [exact Hpos|by apply Hy2]. }
  assert (xmax < inject_Z GRID_SIZE)%Q as Hxlt.
  { apply list_elem_of_fmap in Hx1 as (pt & -> & Hpt). by apply Hbox. }
  assert (ymax < inject_Z GRID_SIZE)%Q as Hylt.
  { apply list_elem_of_fmap in Hy1 as (pt & -> & Hpt). by apply Hbox. }
  assert (tile_size 0 = GRID_SIZE) as Hts0 by done.
  pose proof (tile_size_pos 0) as Hts. rewrite Hts0 in Hts.
  assert (terminal xmax ymax 0) as Hterm.
  { apply terminal_iff; [by apply Qlt_le_weak..|]. rewrite Hts0.
    repeat split; try done; by apply Qlt_le_weak. }
  set (w := full_resolution (convert_gene_column df)).
  assert (np_where (tiles_str_indices GRID_SIZE (location w)) (str_index 0 0)
          = seq 0 (length (rows df))) as Hwhere.
  { rewrite np_where_all.
    - unfold tiles_str_indices, w. cbn [full_resolution location].
      by rewrite !length_fmap, convert_rows.
    - unfold tiles_str_indices, w. cbn [full_resolution location].
      rewrite convert_rows, <-list_fmap_compose. apply Forall_fmap, Forall_forall.
      intros pt Hpt. unfold compose. cbn [fst snd].
      destruct (Hbox pt Hpt) as (? & ? & ? & ?).
      by rewrite !tile_index_zero. }
  assert (build_levels S p g
          = ([{| lv_level := 0; lv_working := w;
                 lv_tiles := [(str_index 0 0, seq 0 (length (rows df)))];
                 lv_sub_indices := None |}], g)) as Hbuilt.
  { rewrite <-build_levels_eq. cbn [p p_xmax p_ymax p_bundle].
    change (seq 0 MAX_LEVELS) with (0%nat :: seq 1 (MAX_LEVELS - 1)).
    rewrite (level_loop_first S xmax ymax 0%nat _ g w Hterm). rewrite Hts0.
    rewrite !n_tiles_one by (done || by apply Qlt_le_weak).
    rewrite scan_tiles_one; rewrite Hwhere; [done|].
    destruct (rows df); [done|]. cbn [length seq]. done. }
  exists (make_container p (build_levels S p g).1).
  unfold written. rewrite (write_transcripts_Ok S path df fs g p Hp).
  cbn [out_result out_fs out_rng]. rewrite lookup_insert_eq, Hbuilt.
  split; [reflexivity|].
  cbn [fst snd make_container grids grids_attrs make_grids_attrs grid_keys
         grid_number_objects number_levels].
  split.
  { cbn [fmap list_fmap]. unfold level_group, tile_group.
    cbn [lv_level lv_working lv_tiles fmap list_fmap fst snd].
    rewrite length_seq.
    rewrite (getitem_bundle_seq w (length (rows df))); [done|].
    unfold w. rewrite <-(convert_rows df). apply full_resolution_len. }
  split. { done. }
  split. { cbn [fmap list_fmap lv_tiles snd]. by rewrite length_seq. }
  split; done.
Qed.

Lemma table_within_first_tile_witness :
  let df := {| rows := [pt 10 20 "A"; pt 240 0 "B"]; gene_dtype := ObjectDtype |} in
  ∃ c, written "out.zarr.zip" (write_transcripts tail_sampler "out.zarr.zip" df ∅ ())
       = Some c
    ∧ grids c
      = [(0%nat, [("0,0", {| tg_arrays := full_resolution (convert_gene_column df);
                             tg_chunks := (length (rows df), 1%nat) |})])]
    ∧ grid_keys (grids_attrs c) = [["0,0"]]
    ∧ grid_number_objects (grids_attrs c) = [[length (rows df)]]
    ∧ number_levels (grids_attrs c) = Some 1%nat
    ∧ out_rng (write_transcripts tail_sampler "out.zarr.zip" df ∅ ()) = ().
Proof.
  apply (table_within_first_tile tail_sampler "out.zarr.zip"
           {| rows := [pt 10 20 "A"; pt 240 0 "B"]; gene_dtype := ObjectDtype |} ∅ ()).
  - repeat constructor; by vm_compute.
  - apply Exists_cons_hd. by vm_compute.
  - apply Exists_cons_hd. by vm_compute.
Defined.
